(** * watermark-sora: the two remote clients, the frame extractor and the
    reset of the application state, embedded from the TypeScript sources

    - [Js]: the few JavaScript notions the sources rely on (truthiness,
      [String.prototype.includes], [split(',')[1]], thrown values, the
      quotient of two numbers);
    - [GeminiService]: [removeWatermarkFromImage] and
      [generateVideoFromFrame] (services/geminiService);
    - [FileUtils]: [fileToBase64] and [extractFirstFrame]
      (utils/fileUtils.ts);
    - [App]: the state of [App.tsx] with [handleReset] and the two
      watermark handlers.

    Remote services and the browser are oracles: their replies are arguments
    of the embedded functions, and every call the code issues is recorded in
    a trace of events. *)

From stdpp Require Import base option list strings gmap.
From Stdlib Require Import ZArith NArith QArith Lia.
From Stdlib Require Import Strings.String Strings.Ascii Numbers.DecimalString.
From Stdlib Require Import Init.Byte.

Close Scope Q_scope.
Local Open Scope string_scope.
Local Open Scope list_scope.

(* ===================================================================== *)
(** ** JavaScript values                                                   *)
(* ===================================================================== *)

Module Js.

(** A value of type [string | null] that may also be [undefined] when it
    was read from an optional field. *)
Inductive Nullable :=
| Null
| Undefined
| Str (s : string).

Definition of_optional (o : option string) : Nullable :=
  match o with
  | Some s => Str s
  | None => Undefined
  end.

(** [if (s)] on a string: only the empty string is falsy. *)
Definition truthy_string (s : string) : bool :=
  match s with
  | EmptyString => false
  | String _ _ => true
  end.

(** [if (v)] on a nullable string. *)
Definition truthy (v : Nullable) : bool :=
  match v with
  | Str s => truthy_string s
  | Null | Undefined => false
  end.

(** A thrown value as the catch blocks see it ([catch (error: any)]); only
    [error.message] is ever read.
    - [mkError message]: a value whose properties can be read, with its
      [message] when that is a string and [None] when it has none;
    - [Nullish]: [null] or [undefined], on which reading [message] throws;
    - [TypeError]: the error the engine throws on such a read; its message
      is the engine's own wording. *)
Inductive Error :=
| mkError (message : option string)
| Nullish
| TypeError.

(** [error == null] *)
Definition is_nullish (error : Error) : bool :=
  match error with
  | Nullish => true
  | _ => false
  end.

(** [new Error(msg)] *)
Definition new_Error (msg : string) : Error := mkError (Some msg).

(** The reply of an awaited call: it fulfils with a value or rejects. *)
Inductive Reply (A : Type) :=
| Fulfilled (a : A)
| Rejected (e : Error).
Arguments Fulfilled {A} a.
Arguments Rejected {A} e.

(** How an [async] function ends. *)
Inductive Completion (A : Type) :=
| Returned (a : A)
| Thrown (e : Error).
Arguments Returned {A} a.
Arguments Thrown {A} e.

(** [s.includes(needle)] *)
Fixpoint includes (needle s : string) : bool :=
  if String.prefix needle s then true
  else match s with
       | EmptyString => false
       | String _ rest => includes needle rest
       end.

(** The characters of [s] before its first comma, and whether a comma was
    found ([Some] of what follows it). *)
Fixpoint cut_comma (s : string) : string * option string :=
  match s with
  | EmptyString => (EmptyString, None)
  | String c rest =>
      if Ascii.eqb c ","%char then (EmptyString, Some rest)
      else let '(field, more) := cut_comma rest in (String c field, more)
  end.

(** [s.split(',')[1]]: the second comma-separated field, [undefined] when
    [s] has no comma. *)
Definition split_comma_1 (s : string) : Nullable :=
  match snd (cut_comma s) with
  | None => Undefined
  | Some rest => Str (fst (cut_comma rest))
  end.

(** [`${n}`] for a non-negative integer. *)
Definition number_to_string (n : N) : string :=
  NilEmpty.string_of_uint (N.to_uint n).

(** [s] has no occurrence of the character [c]. *)
Fixpoint lacks (c : ascii) (s : string) : bool :=
  match s with
  | EmptyString => true
  | String d rest => negb (Ascii.eqb c d) && lacks c rest
  end.

(** A JavaScript number, as far as the sources compute with one: the
    quotient of two integers and its comparison with a constant.  The
    integers at hand are pixel counts, which doubles hold exactly, and a
    correctly rounded quotient of two such integers lies on the same side
    of 1 as the exact one, so finite values are kept as rationals. *)
Inductive Number :=
| Finite (q : Q)
| PosInfinity
| NegInfinity
| NaN.

(** [a / b] on integer-valued numbers, with the IEEE results of a zero
    divisor. *)
Definition div (a b : Z) : Number :=
  if (b =? 0)%Z then
    (if (0 <? a)%Z then PosInfinity
     else if (a <? 0)%Z then NegInfinity
     else NaN)
  else Finite (inject_Z a / inject_Z b)%Q.

(** [x > y]; every comparison with [NaN] is false. *)
Definition gt (x y : Number) : bool :=
  match x, y with
  | NaN, _ | _, NaN => false
  | PosInfinity, PosInfinity => false
  | PosInfinity, _ => true
  | _, PosInfinity => false
  | NegInfinity, _ => false
  | Finite _, NegInfinity => true
  | Finite a, Finite b =>
      match (a ?= b)%Q with Gt => true | _ => false end
  end.

(** [x <= y] *)
Definition le (x y : Number) : bool :=
  match x, y with
  | NaN, _ | _, NaN => false
  | _, PosInfinity => true
  | PosInfinity, _ => false
  | NegInfinity, _ => true
  | Finite _, NegInfinity => false
  | Finite a, Finite b =>
      match (a ?= b)%Q with Gt => false | _ => true end
  end.

(** [s.split(sep)] for a one-character separator: the fields between the
    occurrences of [sep], at least one. *)
Fixpoint split (sep : ascii) (s : string) : list string :=
  match s with
  | EmptyString => [EmptyString]
  | String c rest =>
      let fields := split sep rest in
      if Ascii.eqb c sep then EmptyString :: fields
      else match fields with
           | field :: more => String c field :: more
           | [] => [String c EmptyString]
           end
  end.

(** [fields.join(sep)] *)
Definition join (sep : string) (fields : list string) : string :=
  String.concat sep fields.

(** [fields.slice(0, -1)] *)
Definition slice_0_minus_1 (fields : list string) : list string :=
  removelast fields.

End Js.

Import Js.

(* ===================================================================== *)
(** ** services/geminiService                                              *)
(* ===================================================================== *)

Module GeminiService.

(** interface ImageData *)
Record ImageData := mkImageData {
  data : Nullable;
  mimeType : string
}.

(** *** Shapes of the SDK (every field of a response is optional) *)

Record InlineBlob := mkInlineBlob {
  blob_data : option string;
  blob_mimeType : option string
}.

Record Part := mkPart {
  inlineData : option InlineBlob;
  text : option string
}.

Record Content := mkContent { parts : option (list Part) }.

Record Candidate := mkCandidate { content : option Content }.

Record GenerateContentResponse := mkResponse {
  candidates : option (list Candidate)
}.

(** The request of [ai.models.generateContent]: one inline image and the
    fixed instruction; [responseModalities] is always [[IMAGE]]. *)
Record GenerateContentParameters := mkGenerateContent {
  gc_model : string;
  gc_image : ImageData;
  gc_text : string
}.

Inductive AspectRatio := Landscape_16_9 | Portrait_9_16.

Definition aspect_string (a : AspectRatio) : string :=
  match a with
  | Landscape_16_9 => "16:9"
  | Portrait_9_16 => "9:16"
  end.

Record GenerateVideosParameters := mkGenerateVideos {
  gv_model : string;
  gv_prompt : string;
  gv_image : ImageData;
  gv_numberOfVideos : N;
  gv_resolution : string;
  gv_aspectRatio : AspectRatio
}.

Record Video := mkVideo { uri : option string }.
Record GeneratedVideo := mkGeneratedVideo { video : option Video }.
Record GenerateVideosResponse := mkVideosResponse {
  generatedVideos : option (list GeneratedVideo)
}.

(** The job handle returned by submission and by every status query. *)
Record Operation := mkOperation {
  op_name : string;
  done : option bool;
  response : option GenerateVideosResponse
}.

(** The binary payload of [response.blob()]. *)
Definition BlobBytes := list byte.

(** What [fetch] fulfils with. *)
Record FetchResponse := mkFetchResponse {
  ok : bool;
  status : N;
  body_text : Reply string;
  body_blob : Reply BlobBytes
}.

Inductive LogArg :=
| LogError (e : Error)
| LogText (s : string).

(** Everything the two functions do to the outside world. *)
Inductive Event :=
| CallGenerateContent (req : GenerateContentParameters)
| CallGenerateVideos (req : GenerateVideosParameters)
| Sleep (ms : N)
| CallGetVideosOperation (operation : Operation)
| CallFetch (url : string)
| ConsoleError (args : list LogArg).

(** [!apiKey]: the variable is unset or empty. *)
Definition apiKey_missing (apiKey : option string) : bool :=
  match apiKey with
  | Some k => negb (truthy_string k)
  | None => true
  end.

Definition msg_no_api_key : string :=
  "API_KEY environment variable is not set".

(** *** removeWatermarkFromImage *)

Definition edit_instruction : string := "ازل العلامة المائية من هذه الصورة".

(** [response.candidates?.[0]?.content?.parts || []] *)
Definition first_candidate_parts (r : GenerateContentResponse) : list Part :=
  let first := c ← candidates r; head c in
  let ps := c ← first; ct ← content c; parts ct in
  default [] ps.

(** The [for (const part of ...)] loop with its early [return]; falling
    out of the loop reaches [return null]. *)
Fixpoint scan_parts (ps : list Part) : Nullable :=
  match ps with
  | [] => Null
  | part :: rest =>
      match inlineData part with
      | Some blob => of_optional (blob_data blob)
      | None => scan_parts rest
      end
  end.

(** A part that is not image data. *)
Definition no_image (p : Part) : Prop := inlineData p = None.

Definition msg_image_failed : string :=
  "Failed to process image with Gemini API.".

Definition image_request (imageData : ImageData) : GenerateContentParameters :=
  mkGenerateContent "gemini-2.5-flash-image" imageData edit_instruction.

Definition removeWatermarkFromImage
    (apiKey : option string)
    (generateContent : GenerateContentParameters -> Reply GenerateContentResponse)
    (imageData : ImageData) : list Event * Completion Nullable :=
  if apiKey_missing apiKey then ([], Thrown (new_Error msg_no_api_key))
  else
    let req := image_request imageData in
    match generateContent req with
    | Fulfilled resp =>
        ([CallGenerateContent req], Returned (scan_parts (first_candidate_parts resp)))
    | Rejected error =>
        ([CallGenerateContent req;
          ConsoleError [LogText "Error calling Gemini API for image editing:";
                        LogError error]],
         Thrown (new_Error msg_image_failed))
    end.

(** *** generateVideoFromFrame *)

(** [const ratio = width / height;
     const aspectRatio = ratio > 1 ? '16:9' : '9:16';] *)
Definition ratio (width height : Z) : Number := Js.div width height.

Definition aspectRatio (width height : Z) : AspectRatio :=
  if Js.gt (ratio width height) (Finite 1) then Landscape_16_9
  else Portrait_9_16.

Definition video_prompt : string :=
  "Recreate a high-quality, realistic video based on this initial frame. The video should be a seamless continuation of the scene shown in the image.".

Definition video_request (imageData : ImageData) (width height : Z)
  : GenerateVideosParameters :=
  mkGenerateVideos "veo-3.1-fast-generate-preview" video_prompt imageData
                   1 "720p" (aspectRatio width height).

(** The remote video service and the download host.  The replies to the
    successive status queries are scripted; when the script is exhausted
    the last query issued is never answered. *)
Record VeoService := mkVeoService {
  generateVideos : GenerateVideosParameters -> Reply Operation;
  getVideosOperation : list (Reply Operation);
  fetch : string -> Reply FetchResponse
}.

(** [operation.done] as a condition: absent counts as false. *)
Definition is_done (operation : Operation) : bool :=
  match done operation with
  | Some b => b
  | None => false
  end.

Definition poll_interval : N := 10000.

Inductive Polled :=
| PollDone (operation : Operation)
| PollThrew (e : Error)
| PollWaiting.

(** [while (!operation.done) {
       await new Promise(resolve => setTimeout(resolve, 10000));
       operation = await ai.operations.getVideosOperation({ operation });
     }] *)
Fixpoint poll (operation : Operation) (replies : list (Reply Operation))
  : list Event * Polled :=
  if is_done operation then ([], PollDone operation)
  else
    match replies with
    | [] => ([Sleep poll_interval; CallGetVideosOperation operation], PollWaiting)
    | Fulfilled next :: later =>
        let '(t, r) := poll next later in
        (Sleep poll_interval :: CallGetVideosOperation operation :: t, r)
    | Rejected e :: _ =>
        ([Sleep poll_interval; CallGetVideosOperation operation], PollThrew e)
    end.

(** [operation.response?.generatedVideos?.[0]?.video?.uri] *)
Definition downloadLink (operation : Operation) : option string :=
  r ← response operation;
  vs ← generatedVideos r;
  gv ← head vs;
  v ← video gv;
  uri v.

Definition msg_no_link : string :=
  "Video generation succeeded, but no download link was provided.".

Definition msg_download_failed (status : N) : string :=
  "Failed to download the generated video. Status: " +:+ number_to_string status.

(** The statements of the [try] block after the loop. *)
Definition download (apiKey : string) (fetch : string -> Reply FetchResponse)
    (operation : Operation) : list Event * Reply BlobBytes :=
  match downloadLink operation with
  | Some link =>
      if truthy_string link then
        let url := link +:+ "&key=" +:+ apiKey in
        match fetch url with
        | Rejected e => ([CallFetch url], Rejected e)
        | Fulfilled resp =>
            if ok resp then ([CallFetch url], body_blob resp)
            else
              match body_text resp with
              | Rejected e => ([CallFetch url], Rejected e)
              | Fulfilled errorBody =>
                  ([CallFetch url;
                    ConsoleError [LogText "Failed to download video:"; LogText errorBody]],
                   Rejected (new_Error (msg_download_failed (status resp))))
              end
        end
      else ([], Rejected (new_Error msg_no_link))
  | None => ([], Rejected (new_Error msg_no_link))
  end.

(** The whole [try] block: [None] while the last status query is still
    unanswered. *)
Definition try_block (apiKey : string) (ai : VeoService)
    (imageData : ImageData) (width height : Z)
  : list Event * option (Reply BlobBytes) :=
  let req := video_request imageData width height in
  match generateVideos ai req with
  | Rejected e => ([CallGenerateVideos req], Some (Rejected e))
  | Fulfilled operation =>
      match poll operation (getVideosOperation ai) with
      | (t, PollWaiting) => (CallGenerateVideos req :: t, None)
      | (t, PollThrew e) => (CallGenerateVideos req :: t, Some (Rejected e))
      | (t, PollDone final) =>
          let '(t', r) := download apiKey (fetch ai) final in
          (CallGenerateVideos req :: t ++ t', Some r)
      end
  end.

Definition entity_not_found : string := "Requested entity was not found".

(** [error.message && error.message.includes("Requested entity was not found")]
    on a value whose [message] can be read.  No engine words its
    [TypeError] with that phrase. *)
Definition is_entity_not_found (error : Error) : bool :=
  match error with
  | mkError (Some m) => truthy_string m && includes entity_not_found m
  | _ => false
  end.

Definition msg_api_key_invalid : string := "API_KEY_INVALID".
Definition msg_video_failed : string := "Failed to process video with Veo API.".

(** The [catch (error: any)] block.  After the log, reading
    [error.message] of [null] or [undefined] throws, and that [TypeError]
    is what leaves the function. *)
Definition catch_block (error : Error) : list Event * Completion BlobBytes :=
  ([ConsoleError [LogText "Error calling Veo API:"; LogError error]],
   if is_nullish error then Thrown TypeError
   else if is_entity_not_found error then Thrown (new_Error msg_api_key_invalid)
   else Thrown (new_Error msg_video_failed)).

(** The outcome is [None] while the function is still suspended on a
    status query the script does not answer. *)
Definition generateVideoFromFrame (apiKey : option string) (ai : VeoService)
    (imageData : ImageData) (width height : Z)
  : list Event * option (Completion BlobBytes) :=
  match apiKey with
  | Some key =>
      if truthy_string key then
        match try_block key ai imageData width height with
        | (t, None) => (t, None)
        | (t, Some (Fulfilled videoBlob)) => (t, Some (Returned videoBlob))
        | (t, Some (Rejected error)) =>
            let '(t', c) := catch_block error in (t ++ t', Some c)
        end
      else ([], Some (Thrown (new_Error msg_no_api_key)))
  | None => ([], Some (Thrown (new_Error msg_no_api_key)))
  end.

(** *** Reading a trace *)

(** The operations handed to [getVideosOperation], in order. *)
Fixpoint queries (t : list Event) : list Operation :=
  match t with
  | [] => []
  | CallGetVideosOperation operation :: rest => operation :: queries rest
  | _ :: rest => queries rest
  end.

(** The operations the scripted queries answer with, up to the first
    query that rejects. *)
Fixpoint answered (replies : list (Reply Operation)) : list Operation :=
  match replies with
  | Fulfilled operation :: later => operation :: answered later
  | _ => []
  end.

(** The operations seen before the first one that is done. *)
Fixpoint not_done_prefix (ops : list Operation) : list Operation :=
  match ops with
  | [] => []
  | operation :: later =>
      if is_done operation then [] else operation :: not_done_prefix later
  end.

(** One turn of the loop on [operation]. *)
Definition turn (operation : Operation) : list Event :=
  [Sleep poll_interval; CallGetVideosOperation operation].

(** Every status query in [t] comes right after a suspension of
    [poll_interval]; [slept] tells whether such a suspension has just
    ended. *)
Fixpoint paced (slept : bool) (t : list Event) : bool :=
  match t with
  | [] => true
  | CallGetVideosOperation _ :: rest => slept && paced false rest
  | Sleep ms :: rest => paced (ms =? poll_interval)%N rest
  | _ :: rest => paced false rest
  end.

(** The requests handed to [generateVideos], in order. *)
Fixpoint submissions (t : list Event) : list GenerateVideosParameters :=
  match t with
  | [] => []
  | CallGenerateVideos req :: rest => req :: submissions rest
  | _ :: rest => submissions rest
  end.

(** The same response with [m] as the mime type of every inline blob. *)
Definition retag_part (m : option string) (p : Part) : Part :=
  mkPart ((fun b => mkInlineBlob (blob_data b) m) <$> inlineData p) (text p).

Definition retag_content (m : option string) (ct : Content) : Content :=
  mkContent (map (retag_part m) <$> parts ct).

Definition retag_candidate (m : option string) (c : Candidate) : Candidate :=
  mkCandidate (retag_content m <$> content c).

Definition retag (m : option string) (r : GenerateContentResponse)
  : GenerateContentResponse :=
  mkResponse (map (retag_candidate m) <$> candidates r).

(** A service that answers like [generateContent] but reports [m] as the
    mime type of whatever it returns. *)
Definition retagged (m : option string)
    (generateContent : GenerateContentParameters -> Reply GenerateContentResponse)
    (req : GenerateContentParameters) : Reply GenerateContentResponse :=
  match generateContent req with
  | Fulfilled r => Fulfilled (retag m r)
  | Rejected e => Rejected e
  end.

(** The events of the [try] block after the loop and of the [catch]
    block: downloads and console output. *)
Definition after_poll (e : Event) : bool :=
  match e with
  | CallFetch _ | ConsoleError _ => true
  | _ => false
  end.

(** Where a remote call of [generateVideoFromFrame] can reject. *)
Inductive Phase := Submission | Polling | Download.

(** [raised apiKey ai imageData width height phase e]: in the run on these
    inputs the remote call of [phase] is reached and rejects with [e]. *)
Inductive raised (apiKey : string) (ai : VeoService) (imageData : ImageData)
    (width height : Z) : Phase -> Error -> Prop :=
| raised_submission e :
    generateVideos ai (video_request imageData width height) = Rejected e ->
    raised apiKey ai imageData width height Submission e
| raised_polling first t e :
    generateVideos ai (video_request imageData width height) = Fulfilled first ->
    poll first (getVideosOperation ai) = (t, PollThrew e) ->
    raised apiKey ai imageData width height Polling e
| raised_fetch first t final link e :
    generateVideos ai (video_request imageData width height) = Fulfilled first ->
    poll first (getVideosOperation ai) = (t, PollDone final) ->
    downloadLink final = Some link ->
    truthy_string link = true ->
    fetch ai (link +:+ "&key=" +:+ apiKey) = Rejected e ->
    raised apiKey ai imageData width height Download e
| raised_body_text first t final link resp e :
    generateVideos ai (video_request imageData width height) = Fulfilled first ->
    poll first (getVideosOperation ai) = (t, PollDone final) ->
    downloadLink final = Some link ->
    truthy_string link = true ->
    fetch ai (link +:+ "&key=" +:+ apiKey) = Fulfilled resp ->
    ok resp = false ->
    body_text resp = Rejected e ->
    raised apiKey ai imageData width height Download e
| raised_body_blob first t final link resp e :
    generateVideos ai (video_request imageData width height) = Fulfilled first ->
    poll first (getVideosOperation ai) = (t, PollDone final) ->
    downloadLink final = Some link ->
    truthy_string link = true ->
    fetch ai (link +:+ "&key=" +:+ apiKey) = Fulfilled resp ->
    ok resp = true ->
    body_blob resp = Rejected e ->
    raised apiKey ai imageData width height Download e.

(** An operation that is not done yet. *)
Definition not_done (operation : Operation) : Prop := is_done operation = false.

(** The URLs handed to [fetch], in order. *)
Fixpoint fetches (t : list Event) : list string :=
  match t with
  | [] => []
  | CallFetch url :: rest => url :: fetches rest
  | _ :: rest => fetches rest
  end.

(** The requests handed to [generateContent], in order. *)
Fixpoint edits (t : list Event) : list GenerateContentParameters :=
  match t with
  | [] => []
  | CallGenerateContent req :: rest => req :: edits rest
  | _ :: rest => edits rest
  end.

End GeminiService.

(* ===================================================================== *)
(** ** utils/fileUtils.ts                                                  *)
(* ===================================================================== *)

Module FileUtils.

Import GeminiService.

(** A [File] as far as the sources look at it. *)
Record File := mkFile {
  name : string;
  type : string
}.

(** *** fileToBase64 *)

(** What the [FileReader] does after [readAsDataURL]. *)
Inductive ReaderOutcome :=
| LoadString (result : string)
| LoadOther
| ReaderError (error : Error).

Definition fileToBase64 (file : File) (reader : ReaderOutcome)
  : Completion ImageData :=
  match reader with
  | LoadString result =>
      Returned (mkImageData (split_comma_1 result) (type file))
  | LoadOther => Thrown (new_Error "Failed to read file as base64 string.")
  | ReaderError error => Thrown error
  end.

(** *** extractFirstFrame *)

(** The attributes of the off-screen video element the function reads or
    writes.  Times are seconds. *)
Record HTMLVideoElement := mkVideoElement {
  src : option string;
  paused : bool;
  seeking : bool;
  currentTime : Q;
  videoWidth : N;
  videoHeight : N
}.

(** The browser around one call: the decoded video's native size, the
    object URL minted for the file, whether a 2d context can be had, and
    the encoder ([toDataURL] of the frame shown at a time offset, drawn on
    a canvas of the given size). *)
Record Host := mkHost {
  nativeWidth : N;
  nativeHeight : N;
  videoUrl : string;
  getContext : bool;
  toDataURL : Q -> N -> N -> string
}.

Record Frame := mkFrame {
  frame_data : Nullable;
  frame_mimeType : string;
  width : N;
  height : N
}.

Inductive Settlement :=
| Resolve (frame : Frame)
| Reject (reason : Error).

(** What the handlers do besides updating the element. *)
Inductive Effect :=
| Cleanup
| DrawImage (offset : Q) (w h : N)
| CallResolve (frame : Frame)
| CallReject (reason : Error).

(** One call in flight: the element, the [resolved] flag, the state of
    the returned promise, whether the object URL was revoked, and the
    effects so far (oldest first). *)
Record Extraction := mkExtraction {
  element : HTMLVideoElement;
  resolved : bool;
  promise : option Settlement;
  urlRevoked : bool;
  effects : list Effect
}.

Definition with_element (f : HTMLVideoElement -> HTMLVideoElement)
    (x : Extraction) : Extraction :=
  mkExtraction (f (element x)) (resolved x) (promise x) (urlRevoked x) (effects x).

Definition emit (e : Effect) (x : Extraction) : Extraction :=
  mkExtraction (element x) (resolved x) (promise x) (urlRevoked x)
               (effects x ++ [e]).

(** Settling a promise that is already settled does nothing. *)
Definition settle (s : Settlement) (x : Extraction) : Extraction :=
  mkExtraction (element x) (resolved x)
               (match promise x with
                | None => Some s
                | Some first => Some first
                end)
               (urlRevoked x) (effects x).

Definition resolve (frame : Frame) (x : Extraction) : Extraction :=
  settle (Resolve frame) (emit (CallResolve frame) x).

Definition reject (reason : Error) (x : Extraction) : Extraction :=
  settle (Reject reason) (emit (CallReject reason) x).

(** [video.pause(); video.removeAttribute('src'); video.load();
     URL.revokeObjectURL(videoUrl);]
    Loading without a source resets the element. *)
Definition cleanup (x : Extraction) : Extraction :=
  mkExtraction (mkVideoElement None true false 0 0 0)
               (resolved x) (promise x) true (effects x ++ [Cleanup]).

Definition seek_target : Q := 1 # 10.

(** [video.onloadeddata]: [video.currentTime = 0.1] starts a seek. *)
Definition onloadeddata (x : Extraction) : Extraction :=
  with_element (fun v => mkVideoElement (src v) (paused v) true seek_target
                                        (videoWidth v) (videoHeight v)) x.

Definition mark_resolved (x : Extraction) : Extraction :=
  mkExtraction (element x) true (promise x) (urlRevoked x) (effects x).

Definition msg_no_context : string := "Could not get canvas context.".

(** [video.onseeked] *)
Definition onseeked (host : Host) (x : Extraction) : Extraction :=
  if resolved x then x
  else
    let x := mark_resolved x in
    let w := videoWidth (element x) in
    let h := videoHeight (element x) in
    if getContext host then
      let offset := currentTime (element x) in
      let x := emit (DrawImage offset w h) x in
      let dataUrl := toDataURL host offset w h in
      let x := cleanup x in
      resolve (mkFrame (split_comma_1 dataUrl) "image/jpeg" w h) x
    else
      reject (new_Error msg_no_context) (cleanup x).

(** [video.onerror] *)
Definition onerror (err : Error) (x : Extraction) : Extraction :=
  if resolved x then x
  else reject err (cleanup x).

(** [video.play().catch(err => ...)] *)
Definition play_catch (err : Error) (x : Extraction) : Extraction :=
  if resolved x then x
  else reject err (cleanup x).

(** What the browser can deliver while the call is in flight. *)
Inductive MediaEvent :=
| LoadedData
| Seeked
| ErrorEvent (err : Error)
| PlayRejected (err : Error)
| TimeUpdate (dt : Q).

(** The browser's own part of an event, then the handler the function
    installed for it. *)
Definition dispatch (host : Host) (x : Extraction) (ev : MediaEvent)
  : Extraction :=
  match ev with
  | LoadedData =>
      onloadeddata
        (with_element (fun v => mkVideoElement (src v) (paused v) (seeking v)
                                  (currentTime v)
                                  (nativeWidth host) (nativeHeight host)) x)
  | Seeked =>
      onseeked host
        (with_element (fun v => mkVideoElement (src v) (paused v) false
                                  (currentTime v)
                                  (videoWidth v) (videoHeight v)) x)
  | ErrorEvent err => onerror err x
  | PlayRejected err => play_catch err x
  | TimeUpdate dt =>
      with_element (fun v => mkVideoElement (src v) (paused v) (seeking v)
                                (currentTime v + dt)%Q
                                (videoWidth v) (videoHeight v)) x
  end.

(** When the browser can deliver an event: data only loads from a source,
    [seeked] only ends a seek, and the clock only runs forward while the
    element plays. *)
Definition fires (x : Extraction) (ev : MediaEvent) : Prop :=
  match ev with
  | LoadedData => src (element x) <> None
  | Seeked => seeking (element x) = true
  | TimeUpdate dt => paused (element x) = false /\ (0 <= dt)%Q
  | ErrorEvent _ | PlayRejected _ => True
  end.

(** The state when the executor returns: element created, source bound,
    muted, flag down, handlers installed, [video.play()] called. *)
Definition start (host : Host) : Extraction :=
  mkExtraction (mkVideoElement (Some (videoUrl host)) false false 0 0 0)
               false None false [].

(** Handlers applied to a sequence of events, in order. *)
Definition exec (host : Host) (x : Extraction) (evs : list MediaEvent)
  : Extraction :=
  fold_left (dispatch host) evs x.

(** The same, as a step relation that only admits what the browser can
    deliver. *)
Inductive run (host : Host) : Extraction -> list MediaEvent -> Extraction -> Prop :=
| run_nil x : run host x [] x
| run_cons x ev evs x' :
    fires x ev ->
    run host (dispatch host x ev) evs x' ->
    run host x (ev :: evs) x'.

(** [extractFirstFrame(videoFile)]: the promise after the given events. *)
Definition extractFirstFrame (host : Host) (evs : list MediaEvent)
  : option Settlement :=
  promise (exec host (start host) evs).

(** The decode goes through: the first event that can settle the promise
    is [seeked]. *)
Fixpoint seek_completes_first (evs : list MediaEvent) : bool :=
  match evs with
  | [] => false
  | Seeked :: _ => true
  | ErrorEvent _ :: _ | PlayRejected _ :: _ => false
  | _ :: rest => seek_completes_first rest
  end.

Definition is_completion (e : Effect) : bool :=
  match e with
  | CallResolve _ | CallReject _ => true
  | _ => false
  end.

(** How many times a completion handler ran past the guard. *)
Definition completions (x : Extraction) : nat :=
  List.length (List.filter is_completion (effects x)).

(** What holds of a call until the first event that can settle it: nothing
    is settled, nothing was done, and a seek in progress is the seek to
    [seek_target] on an element that already knows the native size. *)
Definition undecided (host : Host) (x : Extraction) : Prop :=
  resolved x = false
  /\ promise x = None
  /\ effects x = []
  /\ (seeking (element x) = true ->
      (seek_target <= currentTime (element x))%Q
      /\ videoWidth (element x) = nativeWidth host
      /\ videoHeight (element x) = nativeHeight host).

(** The frame [onseeked] resolves with when it draws at [offset]. *)
Definition native_frame (host : Host) (offset : Q) : Frame :=
  mkFrame (split_comma_1 (toDataURL host offset (nativeWidth host) (nativeHeight host)))
          "image/jpeg" (nativeWidth host) (nativeHeight host).

(** The first event of a sequence that can settle the call. *)
Fixpoint first_settling (evs : list MediaEvent) : option MediaEvent :=
  match evs with
  | [] => None
  | Seeked :: _ => Some Seeked
  | ErrorEvent err :: _ => Some (ErrorEvent err)
  | PlayRejected err :: _ => Some (PlayRejected err)
  | _ :: rest => first_settling rest
  end.

Definition is_cleanup (e : Effect) : bool :=
  match e with
  | Cleanup => true
  | _ => false
  end.

(** How many times [cleanup()] ran. *)
Definition cleanups (x : Extraction) : nat :=
  List.length (List.filter is_cleanup (effects x)).

(** A settled call has run [cleanup()]. *)
Definition cleaned_if_settled (x : Extraction) : Prop :=
  promise x <> None -> existsb is_cleanup (effects x) = true.

Definition is_draw (e : Effect) : bool :=
  match e with
  | DrawImage _ _ _ => true
  | _ => false
  end.

(** Everything the call acquired is let go: the element is paused and has
    no source, and the object URL is revoked. *)
Definition released (x : Extraction) : Prop :=
  src (element x) = None /\ paused (element x) = true /\ urlRevoked x = true.

(** The state of a call: still open with everything held, or settled with
    everything let go. *)
Definition open_or_released (x : Extraction) : Prop :=
  (promise x = None /\ urlRevoked x = false /\ resolved x = false
   /\ effects x = [])
  \/ (promise x <> None /\ released x).

(** No event able to settle the call has been handled yet. *)
Definition untouched (x : Extraction) : Prop :=
  promise x = None /\ resolved x = false.

End FileUtils.

(* ===================================================================== *)
(** ** App.tsx                                                             *)
(* ===================================================================== *)

Module App.

Import GeminiService FileUtils.

Record ImageState := mkImageState {
  file : File;
  url : string
}.

Inductive AppMode := image | video.
Inductive ApiKeyStatus := checking | selected | not_selected.

(** The [useState] cells of the component. *)
Record State := mkState {
  mode : AppMode;
  isLoading : bool;
  error : option string;
  isDragging : bool;
  originalImage : option ImageState;
  processedImageUrl : option string;
  originalVideo : option ImageState;
  processedVideoUrl : option string;
  videoLoadingMessage : string;
  apiKeyStatus : ApiKeyStatus
}.

(** The browser's object-URL store: the URLs minted by
    [URL.createObjectURL] and not yet revoked, and the revocations asked
    for so far (oldest first). *)
Record Urls := mkUrls {
  live : gset string;
  revocations : list string
}.

Definition revokeObjectURL (u : string) (w : Urls) : Urls :=
  mkUrls (live w ∖ {[u]}) (revocations w ++ [u]).

Definition createObjectURL (fresh : string) (w : Urls) : Urls :=
  mkUrls ({[fresh]} ∪ live w) (revocations w).

(** [if (asset) URL.revokeObjectURL(asset.url)] *)
Definition revoke_asset (asset : option ImageState) (w : Urls) : Urls :=
  match asset with
  | Some a => revokeObjectURL (url a) w
  | None => w
  end.

(** [if (u) URL.revokeObjectURL(u)] on a [string | null] cell. *)
Definition revoke_url (u : option string) (w : Urls) : Urls :=
  match u with
  | Some s => if truthy_string s then revokeObjectURL s w else w
  | None => w
  end.

(** [handleReset] *)
Definition handleReset (s : State) (w : Urls) : State * Urls :=
  let w := revoke_asset (originalImage s) w in
  let w := revoke_url (processedImageUrl s) w in
  let w := revoke_asset (originalVideo s) w in
  let w := revoke_url (processedVideoUrl s) w in
  (mkState (mode s) false None (isDragging s) None None None None ""
           (apiKeyStatus s),
   w).

(** The URLs a state holds on to. *)
Definition held (s : State) : list string :=
  match originalImage s with Some a => [url a] | None => [] end
  ++ match processedImageUrl s with Some u => [u] | None => [] end
  ++ match originalVideo s with Some a => [url a] | None => [] end
  ++ match processedVideoUrl s with Some u => [u] | None => [] end.

(** The idle state: nothing uploaded, nothing produced, nothing running,
    no error shown. *)
Definition idle (s : State) : Prop :=
  isLoading s = false /\ error s = None /\
  originalImage s = None /\ processedImageUrl s = None /\
  originalVideo s = None /\ processedVideoUrl s = None /\
  videoLoadingMessage s = "".

Definition msg_no_image : string := "لم يتم إرجاع أي صورة من الواجهة البرمجية.".
Definition msg_image_error : string := "حدث خطأ أثناء معالجة الصورة. الرجاء المحاولة مرة أخرى.".
Definition msg_stage_extract : string := "استخراج الإطار الأول...".
(** The label of the second stage. *)
Definition msg_stage_clean : string := "إزالة العلامة المائية من الإطار...".
Definition msg_no_clean_frame : string := "لا يمكن إزالة العلامة المائية من الإطار الأول.".
Definition msg_stage_generate : string := "إنشاء فيديو جديد... قد يستغرق هذا عدة دقائق.".
(** The message of the [else] branch of [if (videoBlob)], which a [Blob]
    never takes. *)
Definition msg_no_video : string := "لم ينتج عن إنشاء الفيديو أي نتيجة.".
Definition msg_key_error : string := "مفتاح API غير صالح. الرجاء تحديد مفتاح صالح والمحاولة مرة أخرى.".
Definition msg_video_error : string := "حدث خطأ أثناء معالجة الفيديو. الرجاء المحاولة مرة أخرى.".

Definition set_image_run (s : State) (loading : bool) (err : option string)
    (processed : option string) : State :=
  mkState (mode s) loading err (isDragging s) (originalImage s) processed
          (originalVideo s) (processedVideoUrl s) (videoLoadingMessage s)
          (apiKeyStatus s).

(** The [catch] and [finally] of the image handler. *)
Definition image_failed (s : State) (t : list Event) (err : Error)
  : State * list Event :=
  (set_image_run s false (Some msg_image_error) None,
   t ++ [ConsoleError [LogError err]]).

(** [handleRemoveImageWatermark] *)
Definition handleRemoveImageWatermark (s : State) (reader : ReaderOutcome)
    (apiKey : option string)
    (generateContent : GenerateContentParameters -> Reply GenerateContentResponse)
  : State * list Event :=
  match originalImage s with
  | None => (s, [])
  | Some original =>
      match fileToBase64 (file original) reader with
      | Thrown err => image_failed s [] err
      | Returned read =>
          let input := mkImageData (data read) (mimeType read) in
          match removeWatermarkFromImage apiKey generateContent input with
          | (t, Thrown err) => image_failed s t err
          | (t, Returned resultBase64) =>
              match resultBase64 with
              | Str result =>
                  if truthy_string result then
                    (set_image_run s false None
                       (Some ("data:" +:+ mimeType read +:+ ";base64," +:+ result)),
                     t)
                  else image_failed s t (new_Error msg_no_image)
              | Null | Undefined => image_failed s t (new_Error msg_no_image)
              end
          end
      end
  end.

Definition set_video_run (s : State) (loading : bool) (err : option string)
    (processed : option string) (label : string) (key : ApiKeyStatus) : State :=
  mkState (mode s) loading err (isDragging s) (originalImage s)
          (processedImageUrl s) (originalVideo s) processed label key.

(** [err.message === "API_KEY_INVALID"] on a value whose [message] can be
    read.  No engine words its [TypeError] that way. *)
Definition is_api_key_invalid (err : Error) : bool :=
  match err with
  | mkError (Some m) => String.eqb m msg_api_key_invalid
  | _ => false
  end.

(** The [catch] and [finally] of the video handler.  On [null] or
    [undefined] the catch block throws at [err.message] after the log, so
    no message is set; the [finally] block runs all the same. *)
Definition video_failed (s : State) (w : Urls) (t : list Event) (err : Error)
  : State * Urls * list Event :=
  (if is_nullish err
   then set_video_run s false None None "" (apiKeyStatus s)
   else if is_api_key_invalid err
   then set_video_run s false (Some msg_key_error) None "" not_selected
   else set_video_run s false (Some msg_video_error) None "" (apiKeyStatus s),
   w, t ++ [ConsoleError [LogError err]]).

(** The object URL [extractFirstFrame] works with: minted by
    [URL.createObjectURL(videoFile)] when the call starts and revoked by
    every [cleanup()] the events lead to. *)
Definition extraction_urls (host : Host) (evs : list MediaEvent) (w : Urls)
  : Urls :=
  fold_left (fun w e => if is_cleanup e then revokeObjectURL (videoUrl host) w
                        else w)
            (effects (exec host (start host) evs))
            (createObjectURL (videoUrl host) w).

(** [handleRemoveVideoWatermark].  [evs] are the media events delivered
    to [extractFirstFrame], [cleaning] is the image service ([None] when
    its answer never comes) and [fresh] is the URL [createObjectURL] mints
    for the result.  When a stage never completes the handler stays
    suspended there, with the spinner on and that stage's label. *)
Definition handleRemoveVideoWatermark (s : State) (w : Urls)
    (host : Host) (evs : list MediaEvent)
    (apiKey : option string)
    (cleaning : option (GenerateContentParameters -> Reply GenerateContentResponse))
    (ai : VeoService) (fresh : string)
  : State * Urls * list Event :=
  match originalVideo s with
  | None => (s, w, [])
  | Some original =>
      let w := revoke_url (processedVideoUrl s) w in
      let waiting label :=
        set_video_run s true None None label (apiKeyStatus s) in
      let w := extraction_urls host evs w in
      match extractFirstFrame host evs with
      | None => (waiting msg_stage_extract, w, [])
      | Some (Reject err) => video_failed s w [] err
      | Some (Resolve frame) =>
          let frameData := frame_data frame in
          let frameMimeType := frame_mimeType frame in
          match cleaning with
          | None =>
              if apiKey_missing apiKey
              then video_failed s w [] (new_Error msg_no_api_key)
              else (waiting msg_stage_clean, w,
                    [CallGenerateContent
                       (image_request (mkImageData frameData frameMimeType))])
          | Some generateContent =>
              match removeWatermarkFromImage apiKey generateContent
                      (mkImageData frameData frameMimeType) with
              | (t, Thrown err) => video_failed s w t err
              | (t, Returned cleanFrameBase64) =>
                  if truthy cleanFrameBase64 then
                    match generateVideoFromFrame apiKey ai
                            (mkImageData cleanFrameBase64 frameMimeType)
                            (Z.of_N (width frame)) (Z.of_N (height frame)) with
                    | (t', None) => (waiting msg_stage_generate, w, t ++ t')
                    | (t', Some (Thrown err)) => video_failed s w (t ++ t') err
                    | (t', Some (Returned videoBlob)) =>
                        (set_video_run s false None (Some fresh) ""
                                       (apiKeyStatus s),
                         createObjectURL fresh w, t ++ t')
                    end
                  else video_failed s w t (new_Error msg_no_clean_frame)
              end
          end
      end
  end.

(** *** handleFileChange *)

Definition mode_name (m : AppMode) : string :=
  match m with
  | image => "image"
  | video => "video"
  end.

(** [file.type.split('/')[0]] *)
Definition fileType (file : File) : string :=
  hd "" (split "/" (type file)).

(** The message for a file of the wrong kind. *)
Definition msg_invalid_file (m : AppMode) : string :=
  "الرجاء تحميل ملف " +:+ match m with image => "صورة" | video => "فيديو" end +:+ " صالح.".

Definition set_error (err : option string) (s : State) : State :=
  mkState (mode s) (isLoading s) err (isDragging s) (originalImage s)
          (processedImageUrl s) (originalVideo s) (processedVideoUrl s)
          (videoLoadingMessage s) (apiKeyStatus s).

Definition set_originalImage (a : option ImageState) (s : State) : State :=
  mkState (mode s) (isLoading s) (error s) (isDragging s) a
          (processedImageUrl s) (originalVideo s) (processedVideoUrl s)
          (videoLoadingMessage s) (apiKeyStatus s).

Definition set_originalVideo (a : option ImageState) (s : State) : State :=
  mkState (mode s) (isLoading s) (error s) (isDragging s) (originalImage s)
          (processedImageUrl s) a (processedVideoUrl s)
          (videoLoadingMessage s) (apiKeyStatus s).

Definition is_image (m : AppMode) : bool :=
  match m with image => true | video => false end.

Definition is_video (m : AppMode) : bool :=
  match m with image => false | video => true end.

(** [handleFileChange(files)]; [fresh] is the URL [createObjectURL] mints
    when the file is taken. *)
Definition handleFileChange (s : State) (w : Urls) (files : option (list File))
    (fresh : string) : State * Urls :=
  let s := set_error None s in
  match files with
  | Some (file :: _) =>
      if is_image (mode s) && String.eqb (fileType file) "image" then
        let '(s, w) := handleReset s w in
        (set_originalImage (Some (mkImageState file fresh)) s,
         createObjectURL fresh w)
      else if is_video (mode s) && String.eqb (fileType file) "video" then
        let '(s, w) := handleReset s w in
        (set_originalVideo (Some (mkImageState file fresh)) s,
         createObjectURL fresh w)
      else (set_error (Some (msg_invalid_file (mode s))) s, w)
  | Some [] | None => (s, w)
  end.

(** *** The credential *)

Definition set_apiKeyStatus (k : ApiKeyStatus) (s : State) : State :=
  mkState (mode s) (isLoading s) (error s) (isDragging s) (originalImage s)
          (processedImageUrl s) (originalVideo s) (processedVideoUrl s)
          (videoLoadingMessage s) k.

(** The effect on [mode]: [checkApiKey] runs in video mode only.
    [hasSelectedApiKey] is [None] when [window.aistudio] does not offer the
    function; when the call rejects, the status stays at [checking]. *)
Definition checkApiKey (s : State) (hasSelectedApiKey : option (Reply bool))
    : State :=
  match mode s with
  | video =>
      let s := set_apiKeyStatus checking s in
      match hasSelectedApiKey with
      | Some (Fulfilled hasKey) =>
          set_apiKeyStatus (if hasKey then selected else not_selected) s
      | Some (Rejected _) => s
      | None => set_apiKeyStatus not_selected s
      end
  | image => s
  end.

Definition msg_no_key_picker : string := "لا يمكن فتح محدد مفتاح API.".

(** [handleSelectKey]; [openSelectKey] is [None] when [window.aistudio]
    does not offer the function, and nothing after the [await] runs when
    the call rejects. *)
Definition handleSelectKey (s : State) (openSelectKey : option (Reply unit))
    : State :=
  match openSelectKey with
  | Some (Fulfilled _) => set_error None (set_apiKeyStatus selected s)
  | Some (Rejected _) => s
  | None => set_error (Some msg_no_key_picker) s
  end.

Definition is_selected (k : ApiKeyStatus) : bool :=
  match k with selected => true | _ => false end.

(** [disabled={isLoading || apiKeyStatus !== 'selected'}] on the video
    action. *)
Definition video_action_disabled (s : State) : bool :=
  isLoading s || negb (is_selected (apiKeyStatus s)).

(** [apiKeyStatus !== 'selected' && !isLoading]: the credential prompt is
    rendered. *)
Definition key_prompt_shown (s : State) : bool :=
  negb (is_selected (apiKeyStatus s)) && negb (isLoading s).

(** *** Download names *)

(** [`watermark-removed-${originalImage.file.name}`] *)
Definition imageDownloadName (original : ImageState) : string :=
  "watermark-removed-" +:+ name (file original).

(** [`watermark-removed-${originalVideo.file.name.split('.').slice(0, -1).join('.')}.mp4`] *)
Definition videoDownloadName (original : ImageState) : string :=
  "watermark-removed-"
  +:+ join "." (slice_0_minus_1 (split "." (name (file original))))
  +:+ ".mp4".

(** *** The tabs *)


End App.

(* ===================================================================== *)
(** ** Concrete inputs used below                                          *)
(* ===================================================================== *)

Module Samples.

Import GeminiService FileUtils App.

(** A response whose first candidate holds a text part, then two images. *)
Definition sample_response : GenerateContentResponse :=
  mkResponse (Some [
    mkCandidate (Some (mkContent (Some [
      mkPart None (Some "here is your image");
      mkPart (Some (mkInlineBlob (Some "AAAA") (Some "image/png"))) None;
      mkPart (Some (mkInlineBlob (Some "BBBB") (Some "image/png"))) None ])));
    mkCandidate (Some (mkContent (Some [
      mkPart (Some (mkInlineBlob (Some "CCCC") (Some "image/png"))) None ]))) ]).

Definition sample_image : ImageData := mkImageData (Str "QUJD") "image/png".

(** The first candidate has no image part; the second one has. *)
Definition image_in_second_candidate : GenerateContentResponse :=
  mkResponse (Some [
    mkCandidate (Some (mkContent (Some [mkPart None (Some "sorry")])));
    mkCandidate (Some (mkContent (Some [
      mkPart (Some (mkInlineBlob (Some "CCCC") (Some "image/png"))) None ]))) ]).

(** A job that is done and carries a link. *)
Definition finished_job : Operation :=
  mkOperation "operations/1" (Some true)
    (Some (mkVideosResponse (Some [mkGeneratedVideo (Some (mkVideo (Some "https://host/video?alt=media")))]))).


(** A job still running. *)
Definition running_job : Operation := mkOperation "operations/1" None None.

Definition video_bytes : BlobBytes := ["0"%byte; "1"%byte; "2"%byte].

Definition download_ok : FetchResponse :=
  mkFetchResponse true 200 (Fulfilled "") (Fulfilled video_bytes).


(** The job is already done when submission returns. *)
Definition done_at_submission : VeoService :=
  mkVeoService (fun _ => Fulfilled finished_job) [] (fun _ => Fulfilled download_ok).

(** The job is done at the second status query. *)
Definition done_after_two_queries : VeoService :=
  mkVeoService (fun _ => Fulfilled running_job)
               [Fulfilled running_job; Fulfilled finished_job;
                Fulfilled running_job]
               (fun _ => Fulfilled download_ok).



Definition not_found : Error :=
  new_Error "Requested entity was not found.".

(** Submission rejects with an entity-not-found error. *)
Definition submission_not_found : VeoService :=
  mkVeoService (fun _ => Rejected not_found) [] (fun _ => Fulfilled download_ok).

(** The job is done at submission and [fetch] itself rejects with an
    entity-not-found message. *)
Definition fetch_not_found : VeoService :=
  mkVeoService (fun _ => Fulfilled finished_job) [] (fun _ => Rejected not_found).

(** A 1920x1080 video in a browser that can draw. *)
Definition sample_host : Host :=
  mkHost 1920 1080 "blob:https://app/1" true
         (fun _ _ _ => "data:image/jpeg;base64,RlJBTUU=").

(** Data loads, playback moves on a little, the seek completes, and the
    cleanup then aborts the pending [play()]. *)
Definition decoding_events : list MediaEvent :=
  [LoadedData; TimeUpdate (1 # 100); Seeked;
   PlayRejected (new_Error "The play() request was interrupted")].

Definition sample_png : File := mkFile "original.png" "image/png".
Definition sample_mp4 : File := mkFile "clip.mp4" "video/mp4".

(** A session that holds an uploaded video and a generated one. *)
Definition busy_state : State :=
  mkState video true (Some "x") false None None
          (Some (mkImageState sample_mp4 "blob:https://app/2"))
          (Some "blob:https://app/3")
          "..." selected.

Definition busy_urls : Urls :=
  mkUrls ({["blob:https://app/2"]} ∪ {["blob:https://app/3"]} ∪ {["blob:https://app/9"]}) [].

(** A session that holds an uploaded image. *)
Definition image_state : State :=
  mkState image false None false
          (Some (mkImageState sample_png "blob:https://app/4"))
          None None None "" checking.

(** The service answers with an image it labels as WebP. *)
Definition webp_response : GenerateContentResponse :=
  mkResponse (Some [
    mkCandidate (Some (mkContent (Some [
      mkPart (Some (mkInlineBlob (Some "UklGRg==") (Some "image/webp"))) None ]))) ]).

(** The job is still running after every scripted answer. *)
Definition never_done : VeoService :=
  mkVeoService (fun _ => Fulfilled running_job)
               [Fulfilled running_job; Fulfilled running_job]
               (fun _ => Fulfilled download_ok).


End Samples.

(* ===================================================================== *)
(** * Properties                                                           *)
(* ===================================================================== *)

(** ** removeWatermarkFromImage *)

Module WatermarkRemoval.

Import GeminiService Samples.

Lemma of_optional_not_null o : of_optional o <> Null.
Proof. destruct o; discriminate. Qed.

(** The loop returns at the first part that carries inline data. *)
Lemma scan_parts_first pre part blob post :
  Forall no_image pre ->
  inlineData part = Some blob ->
  scan_parts (pre ++ part :: post) = of_optional (blob_data blob).
Proof.
  intros Hpre Hpart.
  induction Hpre as [|p pre Hp _ IH]; simpl.
    - now rewrite Hpart.
    - unfold no_image in Hp. now rewrite Hp.
Qed.

(** The loop falls through exactly when no part carries inline data. *)
Lemma scan_parts_null ps :
  scan_parts ps = Null <-> Forall no_image ps.
Proof.
  induction ps as [|p ps IH]; simpl.
    - split; [constructor | reflexivity].
    - destruct (inlineData p) as [blob|] eqn:E.
    + split.
      * intros H. now apply of_optional_not_null in H.
      * intros H. inversion H as [|? ? Hp _]; subst.
        unfold no_image in Hp. congruence.
    + rewrite IH. split.
      * intros H. now constructor.
      * intros H. now inversion H.
Qed.

(** With a credential and a fulfilled call, the function issues that one
    call and returns what the loop finds. *)
Lemma fulfilled_run apiKey generateContent imageData resp :
  apiKey_missing apiKey = false ->
  generateContent (image_request imageData) = Fulfilled resp ->
  removeWatermarkFromImage apiKey generateContent imageData
  = ([CallGenerateContent (image_request imageData)],
     Returned (scan_parts (first_candidate_parts resp))).
Proof.
  intros Hkey Hreply. unfold removeWatermarkFromImage.
  now rewrite Hkey, Hreply.
Qed.

(** Only the head of [candidates] reaches the loop. *)
Lemma first_candidate_parts_cons c cs :
  first_candidate_parts (mkResponse (Some (c :: cs)))
  = match content c with
    | Some ct => match parts ct with Some ps => ps | None => [] end
    | None => []
    end.
Proof.
  unfold first_candidate_parts. simpl.
  destruct (content c) as [ct|]; simpl; [|reflexivity].
  now destruct (parts ct).
Qed.

(** C4.  When the remote call succeeds, [removeWatermarkFromImage] returns
    the data of the first part (of the parts it reads from the response)
    that carries inline image data, and it returns [null] exactly when no
    such part exists; [null] is neither a thrown error nor a returned
    string, empty or not. *)
Theorem removeWatermark_first_image_part
    apiKey generateContent imageData resp :
  apiKey_missing apiKey = false ->
  generateContent (image_request imageData) = Fulfilled resp ->
  let result := snd (removeWatermarkFromImage apiKey generateContent imageData) in
  (forall pre part blob post,
      first_candidate_parts resp = pre ++ part :: post ->
      Forall no_image pre ->
      inlineData part = Some blob ->
      result = Returned (of_optional (blob_data blob)))
  /\ (result = Returned Null <-> Forall no_image (first_candidate_parts resp))
  /\ (forall e, Returned Null <> (Thrown e : Completion Nullable))
  /\ (forall s, Returned Null <> Returned (Str s)).
Proof.
  intros Hkey Hreply result. subst result.
  rewrite (fulfilled_run _ _ _ _ Hkey Hreply). simpl.
  split; [|split; [|split]].
    - intros pre part blob post Hps Hpre Hpart.
    rewrite Hps. f_equal. now apply scan_parts_first.
    - rewrite <- scan_parts_null. split; [intros H; now inversion H | intros ->; reflexivity].
    - discriminate.
    - discriminate.
Qed.

Lemma removeWatermark_first_image_part_witness :
  snd (removeWatermarkFromImage (Some "key") (fun _ => Fulfilled sample_response)
                                sample_image)
  = Returned (Str "AAAA").
Proof.
  refine (proj1 (removeWatermark_first_image_part
                   (Some "key") (fun _ => Fulfilled sample_response)
                   sample_image sample_response eq_refl eq_refl)
                [mkPart None (Some "here is your image")]
                (mkPart (Some (mkInlineBlob (Some "AAAA") (Some "image/png"))) None)
                (mkInlineBlob (Some "AAAA") (Some "image/png"))
                [mkPart (Some (mkInlineBlob (Some "BBBB") (Some "image/png"))) None]
                eq_refl _ eq_refl).
  repeat constructor.
Defined.

(** C9.  On any response shape the function returns rather than throws;
    what it returns is determined by the first candidate alone, whatever
    candidates follow it; and it returns [null] when the response has no
    candidates, or the first candidate has no content, or that content has
    no parts. *)
Theorem removeWatermark_total_first_candidate
    apiKey generateContent imageData resp :
  apiKey_missing apiKey = false ->
  generateContent (image_request imageData) = Fulfilled resp ->
  let result := snd (removeWatermarkFromImage apiKey generateContent imageData) in
  (exists v, result = Returned v)
  /\ (forall c cs,
        candidates resp = Some (c :: cs) ->
        result = Returned (scan_parts
                             match content c with
                             | Some ct => match parts ct with
                                          | Some ps => ps
                                          | None => []
                                          end
                             | None => []
                             end))
  /\ (candidates resp = None -> result = Returned Null)
  /\ (candidates resp = Some [] -> result = Returned Null)
  /\ (forall c cs, candidates resp = Some (c :: cs) ->
                   content c = None -> result = Returned Null)
  /\ (forall c cs ct, candidates resp = Some (c :: cs) ->
                      content c = Some ct -> parts ct = None ->
                      result = Returned Null)
  /\ (forall c cs ct, candidates resp = Some (c :: cs) ->
                      content c = Some ct -> parts ct = Some [] ->
                      result = Returned Null).
Proof.
  intros Hkey Hreply result. subst result.
  rewrite (fulfilled_run _ _ _ _ Hkey Hreply). simpl.
  destruct resp as [cands]. simpl.
  repeat split.
    - eauto.
    - intros c cs ->. now rewrite first_candidate_parts_cons.
    - intros ->. reflexivity.
    - intros ->. reflexivity.
    - intros c cs -> Hc. rewrite first_candidate_parts_cons. now rewrite Hc.
    - intros c cs ct -> Hc Hp. rewrite first_candidate_parts_cons.
    now rewrite Hc, Hp.
    - intros c cs ct -> Hc Hp. rewrite first_candidate_parts_cons.
    now rewrite Hc, Hp.
Qed.

Lemma removeWatermark_total_first_candidate_witness :
  snd (removeWatermarkFromImage (Some "key")
         (fun _ => Fulfilled image_in_second_candidate) sample_image)
  = Returned Null.
Proof.
  exact (proj1 (proj2 (removeWatermark_total_first_candidate
                         (Some "key") (fun _ => Fulfilled image_in_second_candidate)
                         sample_image image_in_second_candidate eq_refl eq_refl))
               _ _ eq_refl).
Defined.

End WatermarkRemoval.

(** ** generateVideoFromFrame: the aspect-ratio preset *)

Module AspectPreset.

Import GeminiService.

(** For a positive height the quotient exceeds 1 exactly when the width
    exceeds the height. *)
Lemma ratio_gt_one (width height : Z) :
  (0 < height)%Z ->
  Js.gt (ratio width height) (Finite 1) = true <-> (height < width)%Z.
Proof.
  intros Hh. unfold ratio, Js.div.
  destruct height as [|p|p]; try lia.
  replace (Z.pos p =? 0)%Z with false by reflexivity.
  unfold Js.gt.
  destruct (inject_Z width / inject_Z (Z.pos p) ?= 1)%Q eqn:E;
    [apply Qeq_alt in E; unfold Qeq in E
    | apply Qlt_alt in E; unfold Qlt in E
    | apply Qgt_alt in E; unfold Qlt in E];
    unfold Qdiv, Qmult, Qinv, inject_Z in E; simpl in E;
    split; intros H; try discriminate; try reflexivity; lia.
Qed.

(** A quotient that is at most 1 is not greater than 1. *)
Lemma le_not_gt (x : Number) :
  Js.le x (Finite 1) = true -> Js.gt x (Finite 1) = false.
Proof.
  destruct x as [q| | |]; simpl; try reflexivity; try discriminate.
  now destruct (q ?= 1)%Q.
Qed.

(** A number divided by itself is 1, or [NaN] for 0: never above 1. *)
Lemma ratio_square (side : Z) : Js.gt (ratio side side) (Finite 1) = false.
Proof.
  unfold ratio, Js.div.
  destruct side as [|p|p]; [reflexivity| |].
  - replace (Z.pos p =? 0)%Z with false by reflexivity.
    unfold Js.gt.
    destruct (inject_Z (Z.pos p) / inject_Z (Z.pos p) ?= 1)%Q eqn:E;
      try reflexivity.
    apply Qgt_alt in E.
    unfold Qlt, Qdiv, Qmult, Qinv, inject_Z in E. simpl in E. lia.
  - replace (Z.neg p =? 0)%Z with false by reflexivity.
    unfold Js.gt.
    destruct (inject_Z (Z.neg p) / inject_Z (Z.neg p) ?= 1)%Q eqn:E;
      try reflexivity.
    apply Qgt_alt in E.
    unfold Qlt, Qdiv, Qmult, Qinv, inject_Z in E. simpl in E. lia.
Qed.

(** C2.  The preset is decided by [width / height]: a ratio above 1 gives
    the landscape preset, a ratio of at most 1 the portrait preset; for a
    positive height that is the comparison of width with height.
    1920x1080 is landscape, 1080x1920 is portrait, and a square frame is
    portrait. *)
Theorem aspectRatio_classification (width height : Z) :
  (Js.gt (ratio width height) (Finite 1) = true ->
   aspectRatio width height = Landscape_16_9)
  /\ (Js.le (ratio width height) (Finite 1) = true ->
      aspectRatio width height = Portrait_9_16)
  /\ ((0 < height)%Z ->
      (aspectRatio width height = Landscape_16_9 <-> (height < width)%Z))
  /\ (width = height -> aspectRatio width height = Portrait_9_16)
  /\ aspectRatio 1920 1080 = Landscape_16_9
  /\ aspectRatio 1080 1920 = Portrait_9_16.
Proof.
  unfold aspectRatio.
  split; [|split; [|split; [|split; [|split]]]]; try reflexivity.
  - now intros ->.
  - intros Hle. now rewrite (le_not_gt _ Hle).
  - intros Hpos. rewrite <- (ratio_gt_one width height Hpos).
    destruct (Js.gt (ratio width height) (Finite 1));
      split; intros H; try reflexivity; discriminate.
  - intros ->. now rewrite ratio_square.
Qed.

Lemma aspectRatio_classification_witness :
  aspectRatio 1280 720 = Landscape_16_9
  /\ aspectRatio 720 1280 = Portrait_9_16
  /\ aspectRatio 512 512 = Portrait_9_16.
Proof.
  split; [|split].
  - exact (proj1 (aspectRatio_classification 1280 720) eq_refl).
  - exact (proj1 (proj2 (aspectRatio_classification 720 1280)) eq_refl).
  - exact (proj1 (proj2 (proj2 (proj2 (aspectRatio_classification 512 512)))) eq_refl).
Defined.

End AspectPreset.

(** ** generateVideoFromFrame: polling, download and error classes *)

Module VideoGeneration.

Import GeminiService Samples.

(** *** Strings *)

Lemma includes_lacks c needle s :
  lacks c s = true -> includes (String c needle) s = false.
Proof.
  induction s as [|d rest IH]; simpl; [reflexivity|].
  intros H. apply andb_prop in H as [Hd Hrest].
  destruct (Ascii.ascii_dec c d) as [->|_].
  - rewrite Ascii.eqb_refl in Hd. discriminate.
  - now apply IH.
Qed.

Lemma lacks_append c s1 s2 :
  lacks c (s1 +:+ s2) = lacks c s1 && lacks c s2.
Proof.
  induction s1 as [|d rest IH]; simpl; [reflexivity|].
  rewrite IH. now rewrite andb_assoc.
Qed.

Lemma uint_lacks_R u : lacks "R" (NilEmpty.string_of_uint u) = true.
Proof. induction u; simpl; auto. Qed.

(** The two errors the function raises itself are never mistaken for an
    entity-not-found error. *)
Lemma no_link_not_entity_not_found :
  is_entity_not_found (new_Error msg_no_link) = false.
Proof. reflexivity. Qed.

Lemma download_failed_not_entity_not_found status :
  is_entity_not_found (new_Error (msg_download_failed status)) = false.
Proof.
  unfold is_entity_not_found, new_Error. cbv beta iota.
  change entity_not_found with (String "R" "equested entity was not found").
  rewrite includes_lacks; [apply andb_false_r|].
  unfold msg_download_failed. rewrite lacks_append.
  unfold number_to_string. now rewrite uint_lacks_R.
Qed.

(** *** The loop *)

Lemma queries_app t1 t2 : queries (t1 ++ t2) = queries t1 ++ queries t2.
Proof.
  induction t1 as [|e t1 IH]; simpl; [reflexivity|].
  destruct e; simpl; now rewrite ?IH.
Qed.

Lemma queries_turns ops : queries (flat_map turn ops) = ops.
Proof. induction ops as [|o ops IH]; simpl; congruence. Qed.

(** The trace of the loop: one turn per operation seen that is not done,
    up to the first done one or the first query that rejects. *)
Lemma poll_trace operation replies :
  fst (poll operation replies)
  = flat_map turn (not_done_prefix (operation :: answered replies)).
Proof.
  revert operation.
  induction replies as [|r later IH]; intros operation.
  - simpl. now destruct (is_done operation).
  - cbn [poll answered not_done_prefix].
    destruct (is_done operation) eqn:E; [reflexivity|].
    destruct r as [next|e].
    + specialize (IH next).
      destruct (poll next later) as [t r]. simpl in IH. subst t.
      reflexivity.
    + reflexivity.
Qed.

(** The loop only ends on an operation that is done. *)
Lemma poll_done operation replies t final :
  poll operation replies = (t, PollDone final) -> is_done final = true.
Proof.
  revert operation t.
  induction replies as [|r later IH]; intros operation t; cbn [poll].
  - destruct (is_done operation) eqn:E; intros H; inversion H; now subst.
  - destruct (is_done operation) eqn:E.
    + intros H; inversion H; now subst.
    + destruct r as [next|e]; [|discriminate].
      destruct (poll next later) as [t' r] eqn:P.
      intros H; inversion H; subst. eapply IH; eauto.
Qed.

Lemma not_done_prefix_all ops :
  Forall (fun o => is_done o = false) (not_done_prefix ops).
Proof.
  induction ops as [|o ops IH]; simpl; [constructor|].
  destruct (is_done o) eqn:E; constructor; assumption.
Qed.

Lemma queries_after_poll rest :
  forallb after_poll rest = true -> queries rest = [].
Proof.
  induction rest as [|e rest IH]; simpl; [reflexivity|].
  intros H. apply andb_prop in H as [He Hrest].
  destruct e; try discriminate; auto.
Qed.

Lemma paced_after_poll slept rest :
  forallb after_poll rest = true -> paced slept rest = true.
Proof.
  revert slept. induction rest as [|e rest IH]; intros slept; simpl; [reflexivity|].
  intros H. apply andb_prop in H as [He Hrest].
  destruct e; try discriminate; auto.
Qed.

Lemma paced_turns slept ops rest :
  (forall b, paced b rest = true) ->
  paced slept (flat_map turn ops ++ rest) = true.
Proof.
  intros Hrest. revert slept.
  induction ops as [|o ops IH]; intros slept; simpl; [apply Hrest|].
  apply IH.
Qed.

(** What [paced] buys: a query is never the first event after anything but
    a suspension of the fixed interval. *)
Lemma paced_sound t : forall slept pre o post,
  paced slept t = true ->
  t = pre ++ CallGetVideosOperation o :: post ->
  (pre = [] /\ slept = true) \/ exists pre', pre = pre' ++ [Sleep poll_interval].
Proof.
  induction t as [|e t IH]; intros slept pre o post Hp Ht.
  - now destruct pre.
  - destruct pre as [|e' pre]; simpl in Ht; inversion Ht; subst.
    + simpl in Hp. apply andb_prop in Hp as [-> _]. now left.
    + right.
      assert (Hnext : exists b, paced b (pre ++ CallGetVideosOperation o :: post) = true
                                /\ (b = true -> e' = Sleep poll_interval)).
      { destruct e'; simpl in Hp;
          try (exists false; split; [assumption | discriminate]).
        - exists (ms =? poll_interval)%N. split; [assumption|].
          intros H. apply N.eqb_eq in H. now subst.
        - apply andb_prop in Hp as [_ Hp].
          exists false; split; [assumption | discriminate]. }
      destruct Hnext as (b & Hb & Hsleep).
      destruct (IH b pre o post Hb eq_refl) as [[-> ->] | [pre' ->]].
      * exists []. now rewrite Hsleep.
      * exists (e' :: pre'). reflexivity.
Qed.

Lemma download_after_poll key f operation :
  forallb after_poll (fst (download key f operation)) = true.
Proof.
  unfold download.
  destruct (downloadLink operation) as [link|]; [|reflexivity].
  destruct (truthy_string link); [|reflexivity].
  destruct (f _) as [resp|e]; [|reflexivity].
  destruct (ok resp); [reflexivity|].
  now destruct (body_text resp).
Qed.

(** The shape of every trace once submission succeeded: the submission,
    the turns of the loop, then only downloads and console output. *)
Lemma generate_trace_shape key ai imageData width height first :
  truthy_string key = true ->
  generateVideos ai (video_request imageData width height) = Fulfilled first ->
  exists rest,
    fst (generateVideoFromFrame (Some key) ai imageData width height)
    = CallGenerateVideos (video_request imageData width height)
        :: flat_map turn (not_done_prefix (first :: answered (getVideosOperation ai)))
        ++ rest
    /\ forallb after_poll rest = true.
Proof.
  intros Hkey Hsub.
  unfold generateVideoFromFrame, try_block. rewrite Hkey, Hsub.
  pose proof (poll_trace first (getVideosOperation ai)) as Ht.
  destruct (poll first (getVideosOperation ai)) as [t r]. cbn [fst] in Ht.
  rewrite <- Ht. clear Ht.
  destruct r as [final|e|].
  - pose proof (download_after_poll key (fetch ai) final) as Hd.
    destruct (download key (fetch ai) final) as [t' [videoBlob|e]]; simpl in Hd.
    + exists t'. now split.
    + exists (t' ++ [ConsoleError [LogText "Error calling Veo API:"; LogError e]]).
      split.
      * simpl. now rewrite <- app_assoc.
      * rewrite forallb_app, Hd. reflexivity.
  - eexists. split; [reflexivity|reflexivity].
  - exists []. split; [now rewrite app_nil_r | reflexivity].
Qed.

(** C1, as stated, fails on its first part: when the submission already
    returns a job that is done, the loop body never runs and the function
    goes straight to the download without a single status query. *)
Lemma no_query_when_done_at_submission :
  generateVideos done_at_submission (video_request sample_image 1920 1080)
  = Fulfilled finished_job
  /\ generateVideoFromFrame (Some "key") done_at_submission sample_image 1920 1080
     = ([CallGenerateVideos (video_request sample_image 1920 1080);
         CallFetch "https://host/video?alt=media&key=key"],
        Some (Returned video_bytes))
  /\ ~ (exists operation,
          In (CallGetVideosOperation operation)
             (fst (generateVideoFromFrame (Some "key") done_at_submission
                                          sample_image 1920 1080))).
Proof.
  split; [reflexivity|]. split; [reflexivity|].
  intros [operation H]. simpl in H.
  destruct H as [H|[H|[]]]; discriminate.
Qed.

(** C1, amended.  After a successful submission the trace starts with the
    submission, and the status queries issued are exactly the operations
    seen so far that were not done (the submitted one, then each answer),
    up to the first done one or the first query that rejects: none when the
    submitted job is already done, at least one otherwise, and never one on
    an operation that is done.  Each query comes right after a suspension
    of 10000 ms. *)
Theorem poll_queries_while_not_done key ai imageData width height first :
  truthy_string key = true ->
  generateVideos ai (video_request imageData width height) = Fulfilled first ->
  let t := fst (generateVideoFromFrame (Some key) ai imageData width height) in
  (exists t', t = CallGenerateVideos (video_request imageData width height) :: t')
  /\ queries t = not_done_prefix (first :: answered (getVideosOperation ai))
  /\ (is_done first = true -> queries t = [])
  /\ (is_done first = false -> exists more, queries t = first :: more)
  /\ Forall (fun operation => is_done operation = false) (queries t)
  /\ (forall pre operation post,
        t = pre ++ CallGetVideosOperation operation :: post ->
        exists pre', pre = pre' ++ [Sleep 10000]).
Proof.
  intros Hkey Hsub t.
  destruct (generate_trace_shape key ai imageData width height first Hkey Hsub)
    as (rest & Ht & Hrest).
  fold t in Ht.
  assert (Hq : queries t = not_done_prefix (first :: answered (getVideosOperation ai))).
  { rewrite Ht. cbn [queries].
    rewrite queries_app, queries_turns, (queries_after_poll rest Hrest).
    apply app_nil_r. }
  split; [eauto|]. split; [exact Hq|]. split; [|split; [|split]].
  - intros Hdone. rewrite Hq. cbn [not_done_prefix]. now rewrite Hdone.
  - intros Hdone. rewrite Hq. cbn [not_done_prefix]. rewrite Hdone. eauto.
  - rewrite Hq. apply not_done_prefix_all.
  - intros pre operation post Hsplit.
    assert (Hp : paced false t = true).
    { rewrite Ht. cbn [paced]. apply paced_turns.
      intros b. now apply paced_after_poll. }
    destruct (paced_sound t false pre operation post Hp Hsplit) as [[_ H]|H].
    + discriminate.
    + exact H.
Qed.

Lemma poll_queries_while_not_done_witness :
  queries (fst (generateVideoFromFrame (Some "key") done_after_two_queries
                                       sample_image 1080 1920))
  = [running_job; running_job].
Proof.
  exact (proj1 (proj2 (poll_queries_while_not_done
                         "key" done_after_two_queries sample_image 1080 1920
                         running_job eq_refl eq_refl))).
Defined.

(** *** The catch block *)

(** A value recognised as entity-not-found has a message that was read. *)
Lemma entity_not_found_not_nullish e :
  is_entity_not_found e = true -> is_nullish e = false.
Proof. destruct e; [reflexivity | discriminate | reflexivity]. Qed.

Lemma generate_outcome key ai imageData width height :
  truthy_string key = true ->
  snd (generateVideoFromFrame (Some key) ai imageData width height)
  = match snd (try_block key ai imageData width height) with
    | None => None
    | Some (Fulfilled videoBlob) => Some (Returned videoBlob)
    | Some (Rejected e) => Some (snd (catch_block e))
    end.
Proof.
  intros Hkey. unfold generateVideoFromFrame. rewrite Hkey.
  destruct (try_block key ai imageData width height) as [t [[videoBlob|e]|]];
    reflexivity.
Qed.

(** A remote call that rejects ends the [try] block with that error. *)
Lemma raised_try_block key ai imageData width height phase e :
  raised key ai imageData width height phase e ->
  snd (try_block key ai imageData width height) = Some (Rejected e).
Proof.
  intros H. unfold try_block, download.
  destruct H as [e Hs | first t e Hs Hp
                 | first t final link e Hs Hp Hl Ht Hf
                 | first t final link resp e Hs Hp Hl Ht Hf Hok Hb
                 | first t final link resp e Hs Hp Hl Ht Hf Hok Hb];
    rewrite Hs; try rewrite Hp; try rewrite Hl; try rewrite Ht;
    try rewrite Hf; try rewrite Hok; try rewrite Hb; reflexivity.
Qed.

(** An error that ends the [try] block was raised by a remote call or is
    one of the two the function throws itself. *)
Lemma try_block_rejected key ai imageData width height e :
  snd (try_block key ai imageData width height) = Some (Rejected e) ->
  (exists phase, raised key ai imageData width height phase e)
  \/ e = new_Error msg_no_link
  \/ exists status, e = new_Error (msg_download_failed status).
Proof.
  unfold try_block.
  destruct (generateVideos ai (video_request imageData width height))
    as [first|e0] eqn:Hs.
  - destruct (poll first (getVideosOperation ai)) as [t [final|e0|]] eqn:Hp.
    + unfold download.
      destruct (downloadLink final) as [link|] eqn:Hl.
      * destruct (truthy_string link) eqn:Ht.
        -- destruct (fetch ai (link +:+ "&key=" +:+ key)) as [resp|e0] eqn:Hf.
           ++ destruct (ok resp) eqn:Hok.
              ** simpl. intros H. left. exists Download.
                 eapply raised_body_blob; eauto. congruence.
              ** destruct (body_text resp) as [errorBody|e0] eqn:Hb; simpl;
                   intros H; inversion H; subst.
                 --- right. right. eauto.
                 --- left. exists Download. eapply raised_body_text; eauto.
           ++ simpl. intros H; inversion H; subst.
              left. exists Download. eapply raised_fetch; eauto.
        -- simpl. intros H; inversion H. now (right; left).
      * simpl. intros H; inversion H. now (right; left).
    + simpl. intros H; inversion H; subst.
      left. exists Polling. eapply raised_polling; eauto.
    + discriminate.
  - simpl. intros H; inversion H; subst.
    left. exists Submission. now apply raised_submission.
Qed.

(** C3, as stated, fails in the only-if direction: the catch block guards
    the whole [try] block, download included.  Here neither submission nor
    polling reports anything, [fetch] rejects with a message holding the
    phrase, and the caller gets API_KEY_INVALID. *)
Lemma fetch_rejection_surfaces_invalid_credential :
  snd (generateVideoFromFrame (Some "key") fetch_not_found sample_image 1920 1080)
  = Some (Thrown (new_Error msg_api_key_invalid))
  /\ ~ (exists e,
          raised "key" fetch_not_found sample_image 1920 1080 Submission e
          \/ raised "key" fetch_not_found sample_image 1920 1080 Polling e).
Proof.
  split; [reflexivity|].
  intros [e [H|H]]; inversion H; subst.
  - discriminate.
  - match goal with
    | Hs : generateVideos _ _ = Fulfilled ?f, Hp : poll ?f _ = _ |- _ =>
        simpl in Hs; inversion Hs; subst; simpl in Hp; discriminate
    end.
Qed.

(** C3, amended.  With a credential configured, the caller gets
    API_KEY_INVALID exactly when a remote call of the [try] block
    (submission, a status query, or the download: [fetch] or the reading of
    its body) rejects with an error whose message is non-empty and holds
    "Requested entity was not found"; in particular such an error from
    submission or polling always surfaces as API_KEY_INVALID and as nothing
    else. *)
Theorem invalid_credential_iff_entity_not_found key ai imageData width height :
  truthy_string key = true ->
  let outcome := snd (generateVideoFromFrame (Some key) ai imageData width height) in
  (outcome = Some (Thrown (new_Error msg_api_key_invalid))
   <-> exists phase e,
         raised key ai imageData width height phase e
         /\ is_entity_not_found e = true)
  /\ (forall e,
        raised key ai imageData width height Submission e
        \/ raised key ai imageData width height Polling e ->
        is_entity_not_found e = true ->
        outcome = Some (Thrown (new_Error msg_api_key_invalid))).
Proof.
  intros Hkey outcome.
  assert (Hback : forall phase e,
             raised key ai imageData width height phase e ->
             is_entity_not_found e = true ->
             outcome = Some (Thrown (new_Error msg_api_key_invalid))).
  { intros phase e Hr He. unfold outcome.
    rewrite (generate_outcome _ _ _ _ _ Hkey).
    rewrite (raised_try_block _ _ _ _ _ _ _ Hr).
    unfold catch_block. simpl.
    rewrite (entity_not_found_not_nullish _ He). now rewrite He. }
  split; [split|].
  - unfold outcome. rewrite (generate_outcome _ _ _ _ _ Hkey).
    destruct (snd (try_block key ai imageData width height))
      as [[videoBlob|e]|] eqn:Htry; try discriminate.
    unfold catch_block. simpl.
    destruct (is_nullish e); [discriminate|].
    destruct (is_entity_not_found e) eqn:He; [intros _|discriminate].
    destruct (try_block_rejected _ _ _ _ _ _ Htry) as [[phase Hr]|[->|[status ->]]].
    + eauto.
    + rewrite no_link_not_entity_not_found in He. discriminate.
    + rewrite download_failed_not_entity_not_found in He. discriminate.
  - intros (phase & e & Hr & He). eauto.
  - intros e [Hr|Hr] He; eauto.
Qed.

Lemma invalid_credential_iff_entity_not_found_witness :
  snd (generateVideoFromFrame (Some "key") submission_not_found sample_image 1920 1080)
  = Some (Thrown (new_Error msg_api_key_invalid)).
Proof.
  refine (proj2 (invalid_credential_iff_entity_not_found
                   "key" submission_not_found sample_image 1920 1080 eq_refl)
                not_found (or_introl _) eq_refl).
  apply raised_submission. reflexivity.
Defined.




End VideoGeneration.

(** ** extractFirstFrame *)

Module FrameExtraction.

Import GeminiService FileUtils Samples.

Lemma run_exec host x evs final :
  run host x evs final -> final = exec host x evs.
Proof. induction 1 as [x|x ev evs final _ _ IH]; [reflexivity | exact IH]. Qed.

(** A settled promise keeps its first settlement. *)
Lemma dispatch_keeps_promise host x ev s :
  promise x = Some s -> promise (dispatch host x ev) = Some s.
Proof.
  intros Hs.
  destruct ev as [| |err|err|dt]; cbn [dispatch].
  - exact Hs.
  - unfold onseeked. cbn.
    destruct (resolved x); [exact Hs|].
    destruct (getContext host); cbn; now rewrite Hs.
  - unfold onerror. destruct (resolved x); [exact Hs|]. cbn. now rewrite Hs.
  - unfold play_catch. destruct (resolved x); [exact Hs|]. cbn. now rewrite Hs.
  - exact Hs.
Qed.

Lemma exec_keeps_promise host evs : forall x s,
  promise x = Some s -> promise (exec host x evs) = Some s.
Proof.
  induction evs as [|ev evs IH]; intros x s Hs; [exact Hs|].
  apply IH. now apply dispatch_keeps_promise.
Qed.

(** Effects are only ever added. *)
Lemma dispatch_extends_effects host x ev :
  exists more, effects (dispatch host x ev) = effects x ++ more.
Proof.
  destruct ev as [| |err|err|dt]; cbn [dispatch].
  - exists []. cbn. now rewrite app_nil_r.
  - unfold onseeked. cbn.
    destruct (resolved x); [exists []; cbn; now rewrite app_nil_r|].
    destruct (getContext host); cbn; rewrite <- ?app_assoc; eauto.
  - unfold onerror. destruct (resolved x);
      [exists []; now rewrite app_nil_r|].
    cbn. rewrite <- ?app_assoc; eauto.
  - unfold play_catch. destruct (resolved x);
      [exists []; now rewrite app_nil_r|].
    cbn. rewrite <- ?app_assoc; eauto.
  - exists []. cbn. now rewrite app_nil_r.
Qed.

Lemma exec_extends_effects host evs : forall x,
  exists more, effects (exec host x evs) = effects x ++ more.
Proof.
  induction evs as [|ev evs IH]; intros x.
  - exists []. cbn. now rewrite app_nil_r.
  - destruct (IH (dispatch host x ev)) as [more2 H2].
    destruct (dispatch_extends_effects host x ev) as [more1 H1].
    exists (more1 ++ more2). cbn [exec fold_left] in *.
    unfold exec in H2. rewrite H2, H1. now rewrite app_assoc.
Qed.

(** Once [onseeked] has run, the guard stops every handler. *)
Lemma guard_after_seeked host evs : forall x,
  resolved x = true ->
  effects (exec host x evs) = effects x
  /\ promise (exec host x evs) = promise x
  /\ resolved (exec host x evs) = true.
Proof.
  induction evs as [|ev evs IH]; intros x Hr; [now repeat split|].
  cbn [exec fold_left].
  assert (H : effects (dispatch host x ev) = effects x
              /\ promise (dispatch host x ev) = promise x
              /\ resolved (dispatch host x ev) = true).
  { destruct ev as [| |err|err|dt]; cbn [dispatch];
      unfold onseeked, onerror, play_catch; cbn; rewrite ?Hr; now repeat split. }
  destruct H as (He & Hp & Hr').
  destruct (IH _ Hr') as (He2 & Hp2 & Hr2). unfold exec in *.
  rewrite He2, Hp2, Hr2, He, Hp. now repeat split.
Qed.

Lemma start_undecided host : undecided host (start host).
Proof.
  unfold undecided, start. cbn.
  split; [reflexivity|]. split; [reflexivity|]. split; [reflexivity|].
  discriminate.
Qed.

Lemma Qle_add_nonneg (a b d : Q) : (a <= b)%Q -> (0 <= d)%Q -> (a <= b + d)%Q.
Proof.
  intros Hab Hd. rewrite <- (Qplus_0_r a). now apply Qplus_le_compat.
Qed.

Lemma undecided_run host x evs final :
  getContext host = true ->
  run host x evs final ->
  undecided host x ->
  seek_completes_first evs = true ->
  exists offset,
    (seek_target <= offset)%Q
    /\ promise final = Some (Resolve (native_frame host offset))
    /\ exists more,
         effects final
         = [DrawImage offset (nativeWidth host) (nativeHeight host);
            Cleanup; CallResolve (native_frame host offset)] ++ more.
Proof.
  intros Hctx Hrun.
  induction Hrun as [x|x ev evs final Hfires Hrun IH]; intros Hx Hfirst;
    [discriminate|].
  destruct Hx as (Hres & Hprom & Heff & Hseek).
  destruct ev as [| |err|err|dt]; cbn [seek_completes_first] in Hfirst;
    try discriminate.
  - (* loadeddata *)
    apply IH; [|exact Hfirst].
    repeat split; try assumption.
    cbn. apply Qle_refl.
  - (* seeked *)
    cbn [fires] in Hfires. destruct (Hseek Hfires) as (Ht & Hw & Hh).
    apply run_exec in Hrun. subst final.
    exists (currentTime (element x)). split; [exact Ht|].
    assert (Hstep : promise (dispatch host x Seeked)
                    = Some (Resolve (native_frame host (currentTime (element x))))
                    /\ effects (dispatch host x Seeked)
                       = [DrawImage (currentTime (element x)) (nativeWidth host)
                                    (nativeHeight host);
                          Cleanup;
                          CallResolve (native_frame host (currentTime (element x)))]).
    { cbn [dispatch]. unfold onseeked. cbn. rewrite Hres, Hctx. cbn.
      rewrite Hprom, Heff, Hw, Hh. now split. }
    destruct Hstep as (Hp & He).
    split.
    + now apply exec_keeps_promise.
    + destruct (exec_extends_effects host evs (dispatch host x Seeked)) as [more Hm].
      exists more. now rewrite Hm, He.
  - (* timeupdate *)
    apply IH; [|exact Hfirst].
    cbn [fires] in Hfires. destruct Hfires as [_ Hdt].
    repeat split; try assumption; cbn in *;
      destruct (Hseek H) as (Ht & Hw & Hh); try assumption.
    now apply Qle_add_nonneg.
Qed.

(** C6.  When the decode goes through (the first event able to settle the
    call is [seeked]) and a 2d context is available, the promise resolves
    with a JPEG frame whose width and height are the native size of the
    video, encoded from the one picture drawn, and that picture was drawn
    at an offset of at least 0.1 s, hence never at offset 0. *)
Theorem extractFirstFrame_native_size_positive_offset host evs final :
  getContext host = true ->
  run host (start host) evs final ->
  seek_completes_first evs = true ->
  exists offset frame more,
    extractFirstFrame host evs = Some (Resolve frame)
    /\ width frame = nativeWidth host
    /\ height frame = nativeHeight host
    /\ frame_mimeType frame = "image/jpeg"
    /\ frame_data frame = split_comma_1 (toDataURL host offset (width frame) (height frame))
    /\ effects final = DrawImage offset (width frame) (height frame) :: more
    /\ (seek_target <= offset)%Q
    /\ (0 < offset)%Q
    /\ ~ (offset == 0)%Q.
Proof.
  intros Hctx Hrun Hfirst.
  destruct (undecided_run host _ _ _ Hctx Hrun (start_undecided host) Hfirst)
    as (offset & Hoff & Hp & more & Hm).
  exists offset, (native_frame host offset),
         ([Cleanup; CallResolve (native_frame host offset)] ++ more).
  assert (Hpos : (0 < offset)%Q).
  { eapply Qlt_le_trans; [|exact Hoff]. reflexivity. }
  unfold extractFirstFrame. rewrite <- (run_exec _ _ _ _ Hrun).
  repeat split; try assumption.
  intros Hz. rewrite Hz in Hpos. now apply Qlt_irrefl in Hpos.
Qed.

Lemma extractFirstFrame_native_size_positive_offset_witness :
  exists offset frame more,
    extractFirstFrame sample_host decoding_events = Some (Resolve frame)
    /\ width frame = 1920%N
    /\ height frame = 1080%N
    /\ frame_mimeType frame = "image/jpeg"
    /\ frame_data frame
       = split_comma_1 (toDataURL sample_host offset (width frame) (height frame))
    /\ effects (exec sample_host (start sample_host) decoding_events)
       = DrawImage offset (width frame) (height frame) :: more
    /\ (seek_target <= offset)%Q
    /\ (0 < offset)%Q
    /\ ~ (offset == 0)%Q.
Proof.
  apply (extractFirstFrame_native_size_positive_offset
           sample_host decoding_events
           (exec sample_host (start sample_host) decoding_events)).
  - reflexivity.
  - unfold decoding_events.
    apply run_cons; [cbn; discriminate|].
    apply run_cons; [cbn; split; [reflexivity | unfold Qle; simpl; lia]|].
    apply run_cons; [reflexivity|].
    apply run_cons; [exact I|].
    apply run_nil.
  - reflexivity.
Defined.

(** C7 fails on the code when the first settling event is an error.  Only
    [onseeked] raises the [resolved] flag; [onerror] and the handler of the
    rejected [play()] test it and leave it down.  So when the element
    reports an error and the promise of [play()] then rejects, both
    handlers run past the guard: [cleanup] runs twice and [reject] is
    called twice.  Only the promise itself, which takes its first
    settlement, keeps the outcome single. *)
Theorem error_then_play_rejection_runs_both_handlers host e1 e2 :
  let final := exec host (start host) [ErrorEvent e1; PlayRejected e2] in
  run host (start host) [ErrorEvent e1; PlayRejected e2] final
  /\ effects final = [Cleanup; CallReject e1; Cleanup; CallReject e2]
  /\ completions final = 2
  /\ resolved final = false
  /\ promise final = Some (Reject e1).
Proof.
  cbn. repeat split.
  apply run_cons; [exact I|]. apply run_cons; [exact I|]. apply run_nil.
Qed.

End FrameExtraction.

(** ** App: reset *)

Module Reset.

Import GeminiService FileUtils App Samples.

Lemma truthy_string_false s : truthy_string s = false -> s = "".
Proof. destruct s; [reflexivity | discriminate]. Qed.

(** From the idle state a reset revokes nothing and changes nothing. *)
Lemma handleReset_fixpoint m d k (w : Urls) :
  handleReset (mkState m false None d None None None None "" k) w
  = (mkState m false None d None None None None "" k, w).
Proof. reflexivity. Qed.

(** C8.  From any state [handleReset] leads to the idle state (no asset, no
    result, no error, not loading, no progress label), after which no URL
    the state held is live any more (live object URLs being non-empty
    strings); and a second reset leaves the state and the URL store as they
    are, asking for no further revocation. *)
Theorem handleReset_idle_released_idempotent (s : State) (w : Urls) :
  "" ∉ live w ->
  let after := handleReset s w in
  idle (fst after)
  /\ mode (fst after) = mode s
  /\ (forall u, u ∈ held s -> u ∉ live (snd after))
  /\ live (snd after) ⊆ live w
  /\ handleReset (fst after) (snd after) = after
  /\ revocations (snd (handleReset (fst after) (snd after)))
     = revocations (snd after).
Proof.
  intros Hempty after. subst after.
  split; [repeat split|]. split; [reflexivity|].
  split; [|split; [|split; reflexivity]].
  - intros u Hu. unfold handleReset, held in *. cbn [snd live].
    destruct s as [m l e d oi pi ov pv msg k]. cbn in *.
    destruct oi as [[f1 u1]|], pi as [u2|], ov as [[f3 u3]|], pv as [u4|];
      cbn in *;
      repeat match goal with
             | |- context [truthy_string ?x] =>
                 let E := fresh "E" in
                 destruct (truthy_string x) eqn:E;
                 [|apply truthy_string_false in E; subst x]
             end;
      cbn; set_unfold; intuition congruence.
  - unfold handleReset. cbn [snd].
    destruct s as [m l e d oi pi ov pv msg k]. cbn.
    destruct oi as [[f1 u1]|], pi as [u2|], ov as [[f3 u3]|], pv as [u4|];
      cbn;
      repeat match goal with
             | |- context [truthy_string ?x] => destruct (truthy_string x)
             end;
      cbn; set_unfold; intuition congruence.
Qed.

Lemma handleReset_idle_released_idempotent_witness :
  idle (fst (handleReset busy_state busy_urls))
  /\ ("blob:https://app/2" ∉ live (snd (handleReset busy_state busy_urls)))
  /\ ("blob:https://app/3" ∉ live (snd (handleReset busy_state busy_urls)))
  /\ handleReset (fst (handleReset busy_state busy_urls))
                 (snd (handleReset busy_state busy_urls))
     = handleReset busy_state busy_urls.
Proof.
  assert (Hempty : "" ∉ live busy_urls).
  { unfold busy_urls. cbn [live]. set_unfold. intuition discriminate. }
  pose proof (handleReset_idle_released_idempotent busy_state busy_urls Hempty)
    as (Hidle & _ & Hheld & _ & Hagain & _).
  split; [exact Hidle|]. split; [|split; [|exact Hagain]].
  - apply Hheld. unfold held, busy_state. cbn. set_unfold. tauto.
  - apply Hheld. unfold held, busy_state. cbn. set_unfold. tauto.
Defined.

End Reset.

(** ** The mime type of the result *)

Module ResultMimeType.

Import GeminiService FileUtils App Samples.

Lemma scan_parts_retag m ps : scan_parts (map (retag_part m) ps) = scan_parts ps.
Proof.
  induction ps as [|p ps IH]; [reflexivity|].
  cbn. destruct (inlineData p) as [blob|]; cbn; [reflexivity | exact IH].
Qed.

Lemma first_candidate_parts_retag m r :
  first_candidate_parts (retag m r) = map (retag_part m) (first_candidate_parts r).
Proof.
  destruct r as [[[|c cs]|]]; try reflexivity.
  unfold first_candidate_parts. cbn.
  destruct c as [[[[ps|]]|]]; reflexivity.
Qed.

(** The function returns the data only: what mime type the service reports
    for it makes no difference. *)
Lemma removeWatermark_ignores_reported_mime m apiKey generateContent imageData :
  removeWatermarkFromImage apiKey (retagged m generateContent) imageData
  = removeWatermarkFromImage apiKey generateContent imageData.
Proof.
  unfold removeWatermarkFromImage, retagged.
  destruct (apiKey_missing apiKey); [reflexivity|].
  destruct (generateContent (image_request imageData)) as [r|e]; [|reflexivity].
  now rewrite first_candidate_parts_retag, scan_parts_retag.
Qed.

(** A call that returns has issued exactly its one request. *)
Lemma removeWatermark_returned apiKey generateContent imageData t v :
  removeWatermarkFromImage apiKey generateContent imageData = (t, Returned v) ->
  t = [CallGenerateContent (image_request imageData)].
Proof.
  unfold removeWatermarkFromImage.
  destruct (apiKey_missing apiKey); [discriminate|].
  destruct (generateContent (image_request imageData)); intros H; inversion H.
  reflexivity.
Qed.

Lemma submissions_app t1 t2 :
  submissions (t1 ++ t2) = submissions t1 ++ submissions t2.
Proof.
  induction t1 as [|e t1 IH]; simpl; [reflexivity|].
  destruct e; simpl; now rewrite ?IH.
Qed.

Lemma in_submissions req t :
  In (CallGenerateVideos req) t -> In req (submissions t).
Proof.
  induction t as [|e t IH]; simpl; [tauto|].
  intros [->|H]; [now left|].
  destruct e; simpl; auto.
Qed.

Lemma submissions_turns ops : submissions (flat_map turn ops) = [].
Proof. induction ops as [|o ops IH]; simpl; congruence. Qed.

Lemma submissions_after_poll rest :
  forallb after_poll rest = true -> submissions rest = [].
Proof.
  induction rest as [|e rest IH]; simpl; [reflexivity|].
  intros H. apply andb_prop in H as [He Hrest].
  destruct e; try discriminate; auto.
Qed.

Lemma submissions_removeWatermark apiKey generateContent imageData :
  submissions (fst (removeWatermarkFromImage apiKey generateContent imageData)) = [].
Proof.
  unfold removeWatermarkFromImage.
  destruct (apiKey_missing apiKey); [reflexivity|].
  now destruct (generateContent (image_request imageData)).
Qed.

(** The only submission a call makes carries the image it was given. *)
Lemma submissions_generate apiKey ai imageData width height req :
  In req (submissions (fst (generateVideoFromFrame apiKey ai imageData width height))) ->
  req = video_request imageData width height.
Proof.
  destruct apiKey as [key|]; [|contradiction].
  destruct (truthy_string key) eqn:Hkey.
  - destruct (generateVideos ai (video_request imageData width height))
      as [first|e] eqn:Hs.
    + destruct (VideoGeneration.generate_trace_shape
                  key ai imageData width height first Hkey Hs)
        as (rest & -> & Hrest).
      cbn [submissions].
      rewrite submissions_app, submissions_turns,
        (submissions_after_poll rest Hrest).
      intros [<-|[]]. reflexivity.
    + unfold generateVideoFromFrame, try_block. rewrite Hkey, Hs. cbn.
      intros [<-|[]]. reflexivity.
  - unfold generateVideoFromFrame. rewrite Hkey. contradiction.
Qed.

(** A frame the extraction resolves with is always labelled JPEG. *)
Lemma resolved_frame_is_jpeg host evs frame :
  extractFirstFrame host evs = Some (Resolve frame) ->
  frame_mimeType frame = "image/jpeg".
Proof.
  unfold extractFirstFrame.
  assert (Hinv : forall x,
             (forall f, promise x = Some (Resolve f) ->
                        frame_mimeType f = "image/jpeg") ->
             forall f, promise (exec host x evs) = Some (Resolve f) ->
                       frame_mimeType f = "image/jpeg").
  { induction evs as [|ev evs IH]; intros x Hx; [exact Hx|].
    cbn [exec fold_left]. apply IH.
    destruct ev as [| |err|err|dt]; cbn [dispatch].
    - exact Hx.
    - unfold onseeked. cbn.
      destruct (resolved x); [exact Hx|].
      destruct (getContext host); cbn;
        destruct (promise x) as [first|] eqn:Hp;
        intros f Hf; try (now apply Hx); inversion Hf; reflexivity.
    - unfold onerror. destruct (resolved x); [exact Hx|]. cbn.
      destruct (promise x) as [first|] eqn:Hp; intros f Hf;
        [now apply Hx | discriminate].
    - unfold play_catch. destruct (resolved x); [exact Hx|]. cbn.
      destruct (promise x) as [first|] eqn:Hp; intros f Hf;
        [now apply Hx | discriminate].
    - exact Hx. }
  apply Hinv. discriminate.
Qed.

(** With a credential, a call makes exactly its one submission. *)
Lemma submissions_generate_once key ai imageData width height :
  truthy_string key = true ->
  submissions (fst (generateVideoFromFrame (Some key) ai imageData width height))
  = [video_request imageData width height].
Proof.
  intros Hkey.
  destruct (generateVideos ai (video_request imageData width height))
    as [first|e] eqn:Hs.
  - destruct (VideoGeneration.generate_trace_shape
                key ai imageData width height first Hkey Hs)
      as (rest & -> & Hrest).
    cbn [submissions].
    now rewrite submissions_app, submissions_turns,
      (submissions_after_poll rest Hrest).
  - unfold generateVideoFromFrame, try_block. now rewrite Hkey, Hs.
Qed.

(** C10.  The mime type of the output is the one of the input.
    (1) [removeWatermarkFromImage] returns the same value whatever mime
    type the service reports for the image.  (2) When the image handler
    ends with a result, that result is a data URL labelled with the type of
    the uploaded file, around the data the service returned; (3) and it
    does end with that result whenever the file was read and the service
    returned a non-empty string.  (4) In the video handler, an image
    submitted for video generation carries the mime type of the frame that
    was sent for watermark removal; (5) and whenever the frame was
    extracted and cleaned, the handler does send the frame for removal and
    does submit the cleaned frame, once, under the frame's own mime type,
    image/jpeg. *)
Theorem result_keeps_input_mime_type :
  (forall m apiKey generateContent imageData,
      removeWatermarkFromImage apiKey (retagged m generateContent) imageData
      = removeWatermarkFromImage apiKey generateContent imageData)
  /\ (forall s reader apiKey generateContent original u,
        originalImage s = Some original ->
        processedImageUrl (fst (handleRemoveImageWatermark s reader apiKey generateContent))
        = Some u ->
        exists read result,
          fileToBase64 (file original) reader = Returned read
          /\ mimeType read = type (file original)
          /\ removeWatermarkFromImage apiKey generateContent read
             = ([CallGenerateContent (image_request read)], Returned (Str result))
          /\ u = "data:" +:+ type (file original) +:+ ";base64," +:+ result)
  /\ (forall s reader apiKey generateContent original read t result,
        originalImage s = Some original ->
        fileToBase64 (file original) reader = Returned read ->
        removeWatermarkFromImage apiKey generateContent
          (mkImageData (data read) (mimeType read)) = (t, Returned (Str result)) ->
        truthy_string result = true ->
        processedImageUrl (fst (handleRemoveImageWatermark s reader apiKey generateContent))
        = Some ("data:" +:+ type (file original) +:+ ";base64," +:+ result))
  /\ (forall s w host evs apiKey cleaning ai fresh req,
        In (CallGenerateVideos req)
           (snd (handleRemoveVideoWatermark s w host evs apiKey cleaning ai fresh)) ->
        exists frame,
          extractFirstFrame host evs = Some (Resolve frame)
          /\ In (CallGenerateContent
                   (image_request (mkImageData (frame_data frame) (frame_mimeType frame))))
                (snd (handleRemoveVideoWatermark s w host evs apiKey cleaning ai fresh))
          /\ mimeType (gv_image req) = frame_mimeType frame)
  /\ (forall s w host evs key generateContent ai fresh original frame t clean,
        originalVideo s = Some original ->
        truthy_string key = true ->
        extractFirstFrame host evs = Some (Resolve frame) ->
        removeWatermarkFromImage (Some key) generateContent
          (mkImageData (frame_data frame) (frame_mimeType frame))
        = (t, Returned clean) ->
        truthy clean = true ->
        let trace :=
          snd (handleRemoveVideoWatermark s w host evs (Some key)
                 (Some generateContent) ai fresh) in
        In (CallGenerateContent
              (image_request (mkImageData (frame_data frame) (frame_mimeType frame))))
           trace
        /\ submissions trace
           = [video_request (mkImageData clean (frame_mimeType frame))
                            (Z.of_N (width frame)) (Z.of_N (height frame))]
        /\ frame_mimeType frame = "image/jpeg").
Proof.
  split; [|split; [|split; [|split]]].
  - intros. apply removeWatermark_ignores_reported_mime.
  - intros s reader apiKey generateContent original u Ho.
    unfold handleRemoveImageWatermark. rewrite Ho.
    destruct (fileToBase64 (file original) reader) as [read|err] eqn:Hread;
      [|discriminate].
    assert (Hmime : mimeType read = type (file original)).
    { unfold fileToBase64 in Hread.
      destruct reader; inversion Hread; reflexivity. }
    destruct read as [d mt]. cbn [data mimeType] in *.
    destruct (removeWatermarkFromImage apiKey generateContent (mkImageData d mt))
      as [t [v|err]] eqn:Hrun; [|discriminate].
    destruct v as [| |result]; try discriminate.
    destruct (truthy_string result); [|discriminate].
    cbn. intros Hu. inversion Hu; subst.
    exists (mkImageData d (type (file original))), result.
    pose proof (removeWatermark_returned _ _ _ _ _ Hrun) as ->.
    repeat split; assumption.
  - intros s reader apiKey generateContent original read t result
           Ho Hread Hrun Htruthy.
    assert (Hmime : mimeType read = type (file original)).
    { unfold fileToBase64 in Hread.
      destruct reader; inversion Hread; reflexivity. }
    unfold handleRemoveImageWatermark.
    rewrite Ho, Hread, Hrun, Htruthy, Hmime. reflexivity.
  - intros s w host evs apiKey cleaning ai fresh req.
    unfold handleRemoveVideoWatermark.
    destruct (originalVideo s) as [original|]; [|contradiction].
    destruct (extractFirstFrame host evs) as [[frame|err]|];
      [| cbn; intros [H|[]]; discriminate | contradiction].
    destruct cleaning as [generateContent|];
      [|destruct (apiKey_missing apiKey); cbn; intros H;
        repeat (destruct H as [H|H]; try discriminate); contradiction].
    destruct (removeWatermarkFromImage apiKey generateContent
                (mkImageData (frame_data frame) (frame_mimeType frame)))
      as [t [clean|err]] eqn:Hclean.
    + pose proof (removeWatermark_returned _ _ _ _ _ Hclean) as ->.
      destruct (truthy clean).
      * destruct (generateVideoFromFrame apiKey ai
                    (mkImageData clean (frame_mimeType frame))
                    (Z.of_N (width frame)) (Z.of_N (height frame)))
          as [t' outcome] eqn:Hgen.
        assert (Hreq : In (CallGenerateVideos req) t' ->
                       mimeType (gv_image req) = frame_mimeType frame).
        { intros Hin. apply in_submissions in Hin.
          replace t' with (fst (generateVideoFromFrame apiKey ai
                    (mkImageData clean (frame_mimeType frame))
                    (Z.of_N (width frame)) (Z.of_N (height frame))))
            in Hin by now rewrite Hgen.
          apply submissions_generate in Hin. now subst req. }
        destruct outcome as [[videoBlob|err]|]; cbn;
          intros [H|H]; try discriminate;
          exists frame; (split; [reflexivity|]); (split; [now left|]);
          apply Hreq.
        -- exact H.
        -- apply in_app_or in H as [H|[H|[]]]; [exact H | discriminate].
        -- exact H.
      * cbn. intros [H|[H|[]]]; discriminate.
    + intros Hin. cbn in Hin. apply in_app_or in Hin as [Hin|[Hin|[]]];
        [|discriminate].
      apply in_submissions in Hin.
      pose proof (submissions_removeWatermark apiKey generateContent
                    (mkImageData (frame_data frame) (frame_mimeType frame))) as Hs.
      rewrite Hclean in Hs. cbn in Hs. rewrite Hs in Hin. contradiction.
  - intros s w host evs key generateContent ai fresh original frame t clean
           Ho Hkey Hframe Hclean Htruthy trace. subst trace.
    pose proof (removeWatermark_returned _ _ _ _ _ Hclean) as Ht. subst t.
    pose proof (submissions_generate_once key ai
                  (mkImageData clean (frame_mimeType frame))
                  (Z.of_N (width frame)) (Z.of_N (height frame)) Hkey) as Hsub.
    unfold handleRemoveVideoWatermark.
    rewrite Ho, Hframe, Hclean, Htruthy.
    destruct (generateVideoFromFrame (Some key) ai
                (mkImageData clean (frame_mimeType frame))
                (Z.of_N (width frame)) (Z.of_N (height frame)))
      as [t' outcome].
    cbn [fst] in Hsub.
    split; [|split; [|exact (resolved_frame_is_jpeg _ _ _ Hframe)]].
    + destruct outcome as [[videoBlob|err]|]; cbn; now left.
    + destruct outcome as [[videoBlob|err]|]; unfold video_failed; cbn [snd];
        rewrite ?submissions_app; cbn [submissions]; rewrite Hsub;
        reflexivity.
Qed.

Lemma result_keeps_input_mime_type_witness :
  (processedImageUrl
     (fst (handleRemoveImageWatermark image_state
             (LoadString "data:image/png;base64,QUJD") (Some "key")
             (fun _ => Fulfilled webp_response)))
   = Some "data:image/png;base64,UklGRg=="
   /\ exists read result,
        fileToBase64 sample_png (LoadString "data:image/png;base64,QUJD") = Returned read
        /\ mimeType read = "image/png"
        /\ removeWatermarkFromImage (Some "key") (fun _ => Fulfilled webp_response) read
           = ([CallGenerateContent (image_request read)], Returned (Str result))
        /\ "data:image/png;base64,UklGRg=="
           = "data:" +:+ "image/png" +:+ ";base64," +:+ result)
  /\ (In (CallGenerateContent
            (image_request (mkImageData (Str "RlJBTUU=") "image/jpeg")))
         (snd (handleRemoveVideoWatermark busy_state busy_urls sample_host
                 decoding_events (Some "key")
                 (Some (fun _ => Fulfilled webp_response))
                 done_after_two_queries "blob:https://app/8"))
      /\ submissions
           (snd (handleRemoveVideoWatermark busy_state busy_urls sample_host
                   decoding_events (Some "key")
                   (Some (fun _ => Fulfilled webp_response))
                   done_after_two_queries "blob:https://app/8"))
         = [video_request (mkImageData (Str "UklGRg==") "image/jpeg") 1920 1080]
      /\ "image/jpeg" = "image/jpeg").
Proof.
  split.
  - split.
    + exact (proj1 (proj2 (proj2 result_keeps_input_mime_type))
                   image_state (LoadString "data:image/png;base64,QUJD") (Some "key")
                   (fun _ => Fulfilled webp_response)
                   (mkImageState sample_png "blob:https://app/4")
                   (mkImageData (Str "QUJD") "image/png")
                   [CallGenerateContent
                      (image_request (mkImageData (Str "QUJD") "image/png"))]
                   "UklGRg==" eq_refl eq_refl eq_refl eq_refl).
    + exact (proj1 (proj2 result_keeps_input_mime_type)
                   image_state (LoadString "data:image/png;base64,QUJD") (Some "key")
                   (fun _ => Fulfilled webp_response)
                   (mkImageState sample_png "blob:https://app/4")
                   "data:image/png;base64,UklGRg==" eq_refl eq_refl).
  - exact (proj2 (proj2 (proj2 (proj2 result_keeps_input_mime_type)))
                 busy_state busy_urls sample_host decoding_events "key"
                 (fun _ => Fulfilled webp_response) done_after_two_queries
                 "blob:https://app/8"
                 (mkImageState sample_mp4 "blob:https://app/2")
                 (mkFrame (Str "RlJBTUU=") "image/jpeg" 1920 1080)
                 [CallGenerateContent
                    (image_request (mkImageData (Str "RlJBTUU=") "image/jpeg"))]
                 (Str "UklGRg==") eq_refl eq_refl eq_refl eq_refl eq_refl).
Defined.

End ResultMimeType.

(** ** geminiService: error classes, submission, download *)

Module ServiceCalls.

Import GeminiService Samples.

(** *** [includes] finds contiguous occurrences *)





(** *** removeWatermarkFromImage *)

(** X2.  [removeWatermarkFromImage] throws only two errors.
    Without a credential it throws the configuration error and calls
    nothing.  With one it issues exactly one request, carrying the image
    as given with the fixed instruction; when that request fails it logs
    the failure and throws the generic error, so the cause never reaches
    the caller. *)
Theorem removeWatermark_error_classes apiKey generateContent imageData :
  let run := removeWatermarkFromImage apiKey generateContent imageData in
  (apiKey_missing apiKey = true <-> run = ([], Thrown (new_Error msg_no_api_key)))
  /\ (apiKey_missing apiKey = false ->
      edits (fst run) = [mkGenerateContent "gemini-2.5-flash-image" imageData edit_instruction])
  /\ (forall cause,
        apiKey_missing apiKey = false ->
        generateContent (image_request imageData) = Rejected cause ->
        run = ([CallGenerateContent (image_request imageData);
                ConsoleError [LogText "Error calling Gemini API for image editing:";
                              LogError cause]],
               Thrown (new_Error msg_image_failed)))
  /\ (forall e, snd run = Thrown e ->
                e = new_Error msg_no_api_key \/ e = new_Error msg_image_failed).
Proof.
  intros run. subst run. unfold removeWatermarkFromImage.
  destruct (apiKey_missing apiKey) eqn:K.
  - split; [split; reflexivity|]. split; [discriminate|].
    split; [discriminate|]. intros e H. inversion H. now left.
  - destruct (generateContent (image_request imageData)) as [resp|cause] eqn:G.
    + split; [split; discriminate|]. split; [reflexivity|].
      split; [discriminate | discriminate].
    + split; [split; discriminate|]. split; [reflexivity|].
      split.
      * intros c _ Hc. inversion Hc. reflexivity.
      * intros e H. inversion H. now right.
Qed.

Lemma removeWatermark_error_classes_witness :
  removeWatermarkFromImage (Some "key") (fun _ => Rejected not_found) sample_image
  = ([CallGenerateContent (image_request sample_image);
      ConsoleError [LogText "Error calling Gemini API for image editing:";
                    LogError not_found]],
     Thrown (new_Error msg_image_failed)).
Proof.
  exact (proj1 (proj2 (proj2 (removeWatermark_error_classes
                                (Some "key") (fun _ => Rejected not_found)
                                sample_image)))
               not_found eq_refl eq_refl).
Defined.

(** *** generateVideoFromFrame *)

Lemma fetches_app t1 t2 : fetches (t1 ++ t2) = fetches t1 ++ fetches t2.
Proof.
  induction t1 as [|e t1 IH]; simpl; [reflexivity|].
  destruct e; simpl; now rewrite ?IH.
Qed.

Lemma fetches_turns ops : fetches (flat_map turn ops) = [].
Proof. induction ops as [|o ops IH]; simpl; congruence. Qed.

Lemma edits_app t1 t2 : edits (t1 ++ t2) = edits t1 ++ edits t2.
Proof.
  induction t1 as [|e t1 IH]; simpl; [reflexivity|].
  destruct e; simpl; now rewrite ?IH.
Qed.

Lemma edits_turns ops : edits (flat_map turn ops) = [].
Proof. induction ops as [|o ops IH]; simpl; congruence. Qed.

Lemma edits_after_poll rest : forallb after_poll rest = true -> edits rest = [].
Proof.
  induction rest as [|e rest IH]; simpl; [reflexivity|].
  intros H. apply andb_prop in H as [He Hrest].
  destruct e; try discriminate; auto.
Qed.

(** What the call does when the credential is missing. *)
Lemma generate_without_key apiKey ai imageData width height :
  apiKey_missing apiKey = true ->
  generateVideoFromFrame apiKey ai imageData width height
  = ([], Some (Thrown (new_Error msg_no_api_key))).
Proof.
  unfold apiKey_missing, generateVideoFromFrame.
  destruct apiKey as [key|]; [|reflexivity].
  destruct (truthy_string key); [discriminate | reflexivity].
Qed.

Lemma apiKey_present apiKey :
  apiKey_missing apiKey = false ->
  exists key, apiKey = Some key /\ truthy_string key = true.
Proof.
  unfold apiKey_missing. destruct apiKey as [key|]; [|discriminate].
  destruct (truthy_string key) eqn:E; [eauto | discriminate].
Qed.



(** The run once the loop has ended on a done operation. *)
Lemma generate_done_run key ai imageData width height first t final :
  truthy_string key = true ->
  generateVideos ai (video_request imageData width height) = Fulfilled first ->
  poll first (getVideosOperation ai) = (t, PollDone final) ->
  generateVideoFromFrame (Some key) ai imageData width height
  = match download key (fetch ai) final with
    | (t', Fulfilled videoBlob) =>
        (CallGenerateVideos (video_request imageData width height) :: t ++ t',
         Some (Returned videoBlob))
    | (t', Rejected e) =>
        ((CallGenerateVideos (video_request imageData width height) :: t ++ t')
           ++ fst (catch_block e),
         Some (snd (catch_block e)))
    end.
Proof.
  intros Hkey Hs Hp. unfold generateVideoFromFrame, try_block.
  rewrite Hkey, Hs, Hp.
  now destruct (download key (fetch ai) final) as [t' [videoBlob|e]].
Qed.

(** Closes a goal whose premise equates a run that threw, or is still
    suspended, with one that returned. *)
Ltac not_returned :=
  unfold catch_block; cbn -[is_entity_not_found is_nullish];
  repeat match goal with
         | |- context [is_nullish ?e] => destruct (is_nullish e)
         | |- context [is_entity_not_found ?e] => destruct (is_entity_not_found e)
         end;
  discriminate.

(** X4.  [generateVideoFromFrame] returns a payload exactly when
    the submission succeeds, the loop ends on a done operation with a
    non-empty link, the fetch of that link with the credential appended
    answers with a success status, and its body can be read; the payload
    is that body, and the trace is the submission, the turns of the loop
    and that single fetch, with nothing logged. *)
Theorem generateVideo_returns_downloaded_bytes
    key ai imageData width height tr videoBlob :
  generateVideoFromFrame (Some key) ai imageData width height
  = (tr, Some (Returned videoBlob))
  <-> truthy_string key = true
      /\ exists first t final link resp,
           generateVideos ai (video_request imageData width height) = Fulfilled first
           /\ poll first (getVideosOperation ai) = (t, PollDone final)
           /\ downloadLink final = Some link
           /\ truthy_string link = true
           /\ fetch ai (link +:+ "&key=" +:+ key) = Fulfilled resp
           /\ ok resp = true
           /\ body_blob resp = Fulfilled videoBlob
           /\ tr = CallGenerateVideos (video_request imageData width height)
                     :: t ++ [CallFetch (link +:+ "&key=" +:+ key)].
Proof.
  split.
  - destruct (truthy_string key) eqn:Hkey;
      [|unfold generateVideoFromFrame; rewrite Hkey; discriminate].
    destruct (generateVideos ai (video_request imageData width height))
      as [first|e] eqn:Hs;
      [|unfold generateVideoFromFrame, try_block; rewrite Hkey, Hs;
        not_returned].
    destruct (poll first (getVideosOperation ai)) as [t [final|e|]] eqn:Hp;
      [|unfold generateVideoFromFrame, try_block; rewrite Hkey, Hs, Hp;
        not_returned ..].
    rewrite (generate_done_run _ _ _ _ _ _ _ _ Hkey Hs Hp).
    unfold download.
    destruct (downloadLink final) as [link|] eqn:Hl; [|not_returned].
    destruct (truthy_string link) eqn:Ht; [|not_returned].
    destruct (fetch ai (link +:+ "&key=" +:+ key)) as [resp|e] eqn:Hf;
      [|not_returned].
    destruct (ok resp) eqn:Hok.
    + destruct (body_blob resp) as [b|e] eqn:Hb; [|not_returned].
      intros H. inversion H; subst.
      split; [reflexivity|].
      exists first, t, final, link, resp. now repeat split.
    + destruct (body_text resp); not_returned.
  - intros (Hkey & first & t & final & link & resp
            & Hs & Hp & Hl & Ht & Hf & Hok & Hb & ->).
    rewrite (generate_done_run _ _ _ _ _ _ _ _ Hkey Hs Hp).
    unfold download. now rewrite Hl, Ht, Hf, Hok, Hb.
Qed.

Lemma generateVideo_returns_downloaded_bytes_witness :
  truthy_string "key" = true
  /\ exists first t final link resp,
       generateVideos done_at_submission (video_request sample_image 1920 1080)
       = Fulfilled first
       /\ poll first (getVideosOperation done_at_submission) = (t, PollDone final)
       /\ downloadLink final = Some link
       /\ truthy_string link = true
       /\ fetch done_at_submission (link +:+ "&key=" +:+ "key") = Fulfilled resp
       /\ ok resp = true
       /\ body_blob resp = Fulfilled video_bytes
       /\ [CallGenerateVideos (video_request sample_image 1920 1080);
           CallFetch "https://host/video?alt=media&key=key"]
          = CallGenerateVideos (video_request sample_image 1920 1080)
              :: t ++ [CallFetch (link +:+ "&key=" +:+ "key")].
Proof.
  exact (proj1 (generateVideo_returns_downloaded_bytes
                  "key" done_at_submission sample_image 1920 1080
                  [CallGenerateVideos (video_request sample_image 1920 1080);
                   CallFetch "https://host/video?alt=media&key=key"]
                  video_bytes)
               eq_refl).
Defined.

Lemma download_fetches key f final :
  fetches (fst (download key f final))
  = match downloadLink final with
    | Some link =>
        if truthy_string link then [link +:+ "&key=" +:+ key] else []
    | None => []
    end.
Proof.
  unfold download.
  destruct (downloadLink final) as [link|]; [|reflexivity].
  destruct (truthy_string link); [|reflexivity].
  destruct (f _) as [resp|e]; [|reflexivity].
  destruct (ok resp); [reflexivity|].
  now destruct (body_text resp).
Qed.

(** X5.  A call fetches at most once, and only the link of the done
    operation the loop ended on, with "&key=" and the credential appended:
    nothing is fetched without a credential, after a failed submission,
    after a failed status query, or while the job is not done. *)
Theorem generateVideo_fetches_only_done_link
    apiKey ai imageData width height url :
  In url (fetches (fst (generateVideoFromFrame apiKey ai imageData width height))) ->
  exists key first t final link,
    apiKey = Some key
    /\ generateVideos ai (video_request imageData width height) = Fulfilled first
    /\ poll first (getVideosOperation ai) = (t, PollDone final)
    /\ is_done final = true
    /\ downloadLink final = Some link
    /\ url = link +:+ "&key=" +:+ key
    /\ fetches (fst (generateVideoFromFrame apiKey ai imageData width height)) = [url].
Proof.
  destruct (apiKey_missing apiKey) eqn:K.
  - rewrite (generate_without_key _ _ _ _ _ K). contradiction.
  - destruct (apiKey_present _ K) as (key & -> & Hkey).
    destruct (generateVideos ai (video_request imageData width height))
      as [first|e] eqn:Hs;
      [|unfold generateVideoFromFrame, try_block; rewrite Hkey, Hs;
        cbn; contradiction].
    destruct (poll first (getVideosOperation ai)) as [t [final|e|]] eqn:Hp.
    + assert (Hfetch :
          fetches (fst (generateVideoFromFrame (Some key) ai imageData width height))
          = fetches (fst (download key (fetch ai) final))).
      { rewrite (generate_done_run _ _ _ _ _ _ _ _ Hkey Hs Hp).
        pose proof (VideoGeneration.poll_trace first (getVideosOperation ai)) as Ht.
        rewrite Hp in Ht. cbn [fst] in Ht. subst t.
        destruct (download key (fetch ai) final) as [t' [b|e]]; cbn [fst fetches].
        - now rewrite fetches_app, fetches_turns.
        - unfold catch_block. cbn [fst].
          rewrite fetches_app. cbn [fetches].
          rewrite fetches_app, fetches_turns. cbn. now rewrite app_nil_r. }
      rewrite Hfetch, download_fetches.
      destruct (downloadLink final) as [link|] eqn:Hl; [|contradiction].
      destruct (truthy_string link); [|contradiction].
      intros [<-|[]].
      exists key, first, t, final, link.
      repeat split; try assumption; try reflexivity.
      eapply VideoGeneration.poll_done; eauto.
    + pose proof (VideoGeneration.poll_trace first (getVideosOperation ai)) as Ht.
      rewrite Hp in Ht. cbn [fst] in Ht. subst t.
      unfold generateVideoFromFrame, try_block. rewrite Hkey, Hs, Hp.
      unfold catch_block. cbn [fst].
      rewrite fetches_app. cbn [fetches]. rewrite fetches_turns. contradiction.
    + pose proof (VideoGeneration.poll_trace first (getVideosOperation ai)) as Ht.
      rewrite Hp in Ht. cbn [fst] in Ht. subst t.
      unfold generateVideoFromFrame, try_block. rewrite Hkey, Hs, Hp.
      cbn [fst fetches]. rewrite fetches_turns. contradiction.
Qed.

Lemma generateVideo_fetches_only_done_link_witness :
  fetches (fst (generateVideoFromFrame (Some "key") done_after_two_queries
                                       sample_image 1920 1080))
  = ["https://host/video?alt=media&key=key"].
Proof.
  destruct (generateVideo_fetches_only_done_link
              (Some "key") done_after_two_queries sample_image 1920 1080
              "https://host/video?alt=media&key=key" (or_introl eq_refl))
    as (_ & _ & _ & _ & _ & _ & _ & _ & _ & _ & _ & H).
  exact H.
Defined.

(** X6.  With a credential, a call submits exactly one job, whose
    request carries the image as given, one video, the 720p resolution and
    the preset derived from the sizes; it never calls the image-editing
    service. *)
Theorem generateVideo_submits_once key ai imageData width height :
  truthy_string key = true ->
  let t := fst (generateVideoFromFrame (Some key) ai imageData width height) in
  submissions t
  = [mkGenerateVideos "veo-3.1-fast-generate-preview" video_prompt imageData
                      1 "720p" (aspectRatio width height)]
  /\ edits t = [].
Proof.
  intros Hkey t. subst t.
  destruct (generateVideos ai (video_request imageData width height))
    as [first|e] eqn:Hs.
  - destruct (VideoGeneration.generate_trace_shape
                key ai imageData width height first Hkey Hs)
      as (rest & -> & Hrest).
    cbn [submissions edits].
    rewrite ResultMimeType.submissions_app, ResultMimeType.submissions_turns,
      (ResultMimeType.submissions_after_poll rest Hrest).
    rewrite edits_app, edits_turns, (edits_after_poll rest Hrest).
    now split.
  - unfold generateVideoFromFrame, try_block. rewrite Hkey, Hs. now split.
Qed.

Lemma generateVideo_submits_once_witness :
  submissions (fst (generateVideoFromFrame (Some "key") done_after_two_queries
                                           sample_image 1080 1920))
  = [mkGenerateVideos "veo-3.1-fast-generate-preview" video_prompt sample_image
                      1 "720p" Portrait_9_16].
Proof.
  exact (proj1 (generateVideo_submits_once
                  "key" done_after_two_queries sample_image 1080 1920 eq_refl)).
Defined.

(** *** The loop has no bound *)

Lemma not_done_prefix_id ops :
  Forall not_done ops -> not_done_prefix ops = ops.
Proof.
  induction 1 as [|o ops Ho _ IH]; simpl; [reflexivity|].
  unfold not_done in Ho. now rewrite Ho, IH.
Qed.

Lemma poll_waiting_iff replies : forall operation,
  snd (poll operation replies) = PollWaiting
  <-> Forall not_done (operation :: answered replies)
      /\ List.length (answered replies) = List.length replies.
Proof.
  induction replies as [|r later IH]; intros operation; cbn [poll answered].
  - destruct (is_done operation) eqn:E; cbn.
    + split; [discriminate|]. intros [H _]. inversion H. congruence.
    + split; [|reflexivity]. intros _. split; [|reflexivity].
      now repeat constructor.
  - destruct (is_done operation) eqn:E.
    + cbn. split; [discriminate|]. intros [H _]. inversion H as [|? ? Ho _].
      unfold not_done in Ho. congruence.
    + destruct r as [next|e].
      * specialize (IH next).
        destruct (poll next later) as [t r]. cbn [snd] in *.
        rewrite IH. cbn [List.length]. split.
        -- intros [H Hl]. split; [now constructor | now f_equal].
        -- intros [H Hl]. inversion H. split; [assumption | now inversion Hl].
      * cbn. split; [discriminate | intros [_ H]; discriminate].
Qed.

(** X7.  With a credential, the call is still suspended on a
    status query exactly when the submission succeeded, no status seen so
    far was done and no query failed; it has then issued one query more
    than it got answers.  So the number of queries grows with the answers
    the service gives, with no bound of its own. *)
Theorem generateVideo_suspended_iff key ai imageData width height :
  truthy_string key = true ->
  let run := generateVideoFromFrame (Some key) ai imageData width height in
  (snd run = None
   <-> exists first,
         generateVideos ai (video_request imageData width height) = Fulfilled first
         /\ Forall not_done (first :: answered (getVideosOperation ai))
         /\ List.length (answered (getVideosOperation ai))
            = List.length (getVideosOperation ai))
  /\ (snd run = None ->
      List.length (queries (fst run)) = S (List.length (getVideosOperation ai))).
Proof.
  intros Hkey run. subst run.
  assert (Hiff :
    snd (generateVideoFromFrame (Some key) ai imageData width height) = None
    <-> exists first,
          generateVideos ai (video_request imageData width height) = Fulfilled first
          /\ Forall not_done (first :: answered (getVideosOperation ai))
          /\ List.length (answered (getVideosOperation ai))
             = List.length (getVideosOperation ai)).
  { rewrite (VideoGeneration.generate_outcome _ _ _ _ _ Hkey).
    unfold try_block.
    destruct (generateVideos ai (video_request imageData width height))
      as [first|e] eqn:Hs.
    - pose proof (poll_waiting_iff (getVideosOperation ai) first) as Hw.
      destruct (poll first (getVideosOperation ai)) as [t [final|e|]];
        cbn [snd] in *.
      + destruct (download key (fetch ai) final) as [t' [b|e]]; cbn.
        * split; [discriminate|].
          intros (f & Hf & H). inversion Hf; subst.
          apply Hw in H. discriminate.
        * split; [discriminate|].
          intros (f & Hf & H). inversion Hf; subst.
          apply Hw in H. discriminate.
      + split; [discriminate|].
        intros (f & Hf & H). inversion Hf; subst. apply Hw in H. discriminate.
      + split; [|reflexivity]. intros _. exists first.
        split; [reflexivity|]. now apply Hw.
    - cbn. split; [discriminate | intros (f & Hf & _); discriminate]. }
  split; [exact Hiff|].
  intros H. apply Hiff in H as (first & Hs & Hall & Hlen).
  destruct (VideoGeneration.generate_trace_shape
              key ai imageData width height first Hkey Hs)
    as (rest & -> & Hrest).
  cbn [queries].
  rewrite VideoGeneration.queries_app, VideoGeneration.queries_turns,
    (VideoGeneration.queries_after_poll rest Hrest), app_nil_r.
  rewrite (not_done_prefix_id _ Hall). cbn [List.length]. now rewrite Hlen.
Qed.

Lemma generateVideo_suspended_iff_witness :
  List.length (queries (fst (generateVideoFromFrame (Some "key") never_done
                                                    sample_image 1920 1080)))
  = 3%nat.
Proof.
  exact (proj2 (generateVideo_suspended_iff
                  "key" never_done sample_image 1920 1080 eq_refl)
               eq_refl).
Defined.

End ServiceCalls.

(** ** fileUtils: reading a file, the life of an extraction *)

Module FileReading.

Import GeminiService FileUtils Samples.

Lemma append_assoc (a b c : string) : (a +:+ b) +:+ c = a +:+ (b +:+ c).
Proof.
  induction a as [|x a IH]; [reflexivity|].
  change (String x ((a +:+ b) +:+ c) = String x (a +:+ (b +:+ c))).
  now rewrite IH.
Qed.

Lemma cut_comma_lacks s :
  lacks "," s = true -> cut_comma s = (s, None).
Proof.
  induction s as [|c s IH]; cbn [lacks cut_comma]; [reflexivity|].
  intros H. apply andb_prop in H as [Hc Hs].
  apply negb_true_iff in Hc. rewrite Ascii.eqb_sym, Hc.
  now rewrite (IH Hs).
Qed.

Lemma cut_comma_at header rest :
  lacks "," header = true ->
  cut_comma (header +:+ "," +:+ rest) = (header, Some rest).
Proof.
  induction header as [|c s IH]; [reflexivity|].
  change (String c s +:+ "," +:+ rest) with (String c (s +:+ "," +:+ rest)).
  cbn [lacks cut_comma].
  intros H. apply andb_prop in H as [Hc Hs].
  apply negb_true_iff in Hc. rewrite Ascii.eqb_sym, Hc.
  now rewrite (IH Hs).
Qed.

(** [split(',')[1]] gives back what stands between the first and the
    second comma. *)
Lemma split_comma_1_payload header payload :
  lacks "," header = true ->
  lacks "," payload = true ->
  split_comma_1 (header +:+ "," +:+ payload) = Str payload.
Proof.
  intros Hh Hp. unfold split_comma_1.
  rewrite (cut_comma_at header payload Hh). cbn [fst snd].
  now rewrite (cut_comma_lacks payload Hp).
Qed.

Lemma split_comma_1_second header payload rest :
  lacks "," header = true ->
  lacks "," payload = true ->
  split_comma_1 (header +:+ "," +:+ payload +:+ "," +:+ rest) = Str payload.
Proof.
  intros Hh Hp. unfold split_comma_1.
  rewrite (cut_comma_at header (payload +:+ "," +:+ rest) Hh). cbn [fst snd].
  now rewrite (cut_comma_at payload rest Hp).
Qed.

(** X8.  [fileToBase64] hands back the second comma-separated field
    of what the reader produced, together with the type of the file,
    whatever type the data URL itself names: what follows the first comma
    when there is no other comma, and only what stands between the first
    and the second comma when there is one, the rest being dropped, so a
    payload that is empty before the second comma reads as the empty
    string.  A result without a comma gives [undefined] data rather than
    an error; a reader error is passed on unchanged; a result that is not
    a string is the fixed error.  In particular the data URL built from a
    mime type and a payload, as the image handler builds its result, reads
    back as that payload. *)
Theorem fileToBase64_payload (file : File) :
  (forall header payload,
      lacks "," header = true ->
      lacks "," payload = true ->
      fileToBase64 file (LoadString (header +:+ "," +:+ payload))
      = Returned (mkImageData (Str payload) (type file)))
  /\ (forall header payload rest,
        lacks "," header = true ->
        lacks "," payload = true ->
        fileToBase64 file
          (LoadString (header +:+ "," +:+ payload +:+ "," +:+ rest))
        = Returned (mkImageData (Str payload) (type file)))
  /\ (forall mime payload,
        lacks "," mime = true ->
        lacks "," payload = true ->
        fileToBase64 file (LoadString ("data:" +:+ mime +:+ ";base64," +:+ payload))
        = Returned (mkImageData (Str payload) (type file)))
  /\ (forall result,
        lacks "," result = true ->
        fileToBase64 file (LoadString result)
        = Returned (mkImageData Undefined (type file)))
  /\ (forall error, fileToBase64 file (ReaderError error) = Thrown error)
  /\ fileToBase64 file LoadOther
     = Thrown (new_Error "Failed to read file as base64 string.").
Proof.
  split; [|split; [|split; [|split; [|split; reflexivity]]]].
  - intros header payload Hh Hp. unfold fileToBase64.
    now rewrite split_comma_1_payload.
  - intros header payload rest Hh Hp. unfold fileToBase64.
    now rewrite split_comma_1_second.
  - intros mime payload Hm Hp. unfold fileToBase64.
    replace ("data:" +:+ mime +:+ ";base64," +:+ payload)
      with (("data:" +:+ mime +:+ ";base64") +:+ "," +:+ payload)
      by (rewrite !append_assoc; reflexivity).
    rewrite split_comma_1_payload; [reflexivity| |assumption].
    rewrite !VideoGeneration.lacks_append, Hm. reflexivity.
  - intros result Hr. unfold fileToBase64, split_comma_1.
    now rewrite (cut_comma_lacks result Hr).
Qed.

Lemma fileToBase64_payload_witness :
  fileToBase64 sample_png (LoadString "data:image/png;base64,QUJD")
  = Returned (mkImageData (Str "QUJD") "image/png")
  /\ fileToBase64 sample_png (LoadString "data:image/png;base64,QUJD,REVG")
     = Returned (mkImageData (Str "QUJD") "image/png")
  /\ fileToBase64 sample_png (LoadString "data:image/png;base64")
     = Returned (mkImageData Undefined "image/png").
Proof.
  split; [|split].
  - exact (proj1 (proj2 (proj2 (fileToBase64_payload sample_png)))
                 "image/png" "QUJD" eq_refl eq_refl).
  - exact (proj1 (proj2 (fileToBase64_payload sample_png))
                 "data:image/png;base64" "QUJD" "REVG" eq_refl eq_refl).
  - exact (proj1 (proj2 (proj2 (proj2 (fileToBase64_payload sample_png))))
                 "data:image/png;base64" eq_refl).
Defined.

End FileReading.

Module ExtractionLifecycle.

Import GeminiService FileUtils Samples.

Lemma exec_app host x evs1 evs2 :
  exec host x (evs1 ++ evs2) = exec host (exec host x evs1) evs2.
Proof. unfold exec. apply fold_left_app. Qed.

Lemma dispatch_open_or_released host x ev :
  open_or_released x -> open_or_released (dispatch host x ev).
Proof.
  intros [(Hp & Hu & Hr & He) | (Hp & Hs & Hpa & Hu)].
  - destruct ev as [| |err|err|dt]; cbn [dispatch].
    + left. now repeat split.
    + right. unfold onseeked, released. cbn. rewrite Hr.
      destruct (getContext host); cbn; rewrite Hp;
        (split; [discriminate | now repeat split]).
    + right. unfold onerror, released. rewrite Hr. cbn. rewrite Hp.
      split; [discriminate | now repeat split].
    + right. unfold play_catch, released. rewrite Hr. cbn. rewrite Hp.
      split; [discriminate | now repeat split].
    + left. now repeat split.
  - right.
    destruct (promise x) as [s|] eqn:Hs'; [|congruence].
    split; [now rewrite (FrameExtraction.dispatch_keeps_promise host x ev s Hs')|].
    destruct ev as [| |err|err|dt]; cbn [dispatch];
      unfold onseeked, onerror, play_catch, released; cbn;
      repeat match goal with
             | |- context [if ?b then _ else _] => destruct b; cbn
             end;
      now repeat split.
Qed.

Lemma exec_open_or_released host evs : forall x,
  open_or_released x -> open_or_released (exec host x evs).
Proof.
  induction evs as [|ev evs IH]; intros x Hx; [exact Hx|].
  apply IH. now apply dispatch_open_or_released.
Qed.

(** X9.  Whatever events arrive and in whatever order, the object
    URL of the file is revoked exactly when the returned promise is
    settled, and a settled call has its element paused and without source:
    no exit path leaves the resources held, and nothing is released while
    the call is still open. *)
Theorem extractFirstFrame_releases_iff_settled host evs :
  let x := exec host (start host) evs in
  (urlRevoked x = true <-> extractFirstFrame host evs <> None)
  /\ (extractFirstFrame host evs <> None -> released x)
  /\ (extractFirstFrame host evs = None -> effects x = []).
Proof.
  intros x. subst x. unfold extractFirstFrame.
  assert (H : open_or_released (exec host (start host) evs)).
  { apply exec_open_or_released. left. now repeat split. }
  destruct H as [(Hp & Hu & Hr & He) | (Hp & Hrel)].
  - rewrite Hp, Hu. split; [split; [discriminate | congruence]|].
    split; [congruence | intros _; exact He].
  - destruct Hrel as (Hs & Hpa & Hu). rewrite Hu.
    split; [split; [intros _; exact Hp | reflexivity]|].
    split; [intros _; now repeat split | intros H; contradiction].
Qed.

Lemma extractFirstFrame_releases_iff_settled_witness :
  released (exec sample_host (start sample_host) decoding_events).
Proof.
  apply (proj1 (proj2 (extractFirstFrame_releases_iff_settled
                         sample_host decoding_events))).
  discriminate.
Defined.

(** X10.  The promise is decided by the first event able to
    settle it: it stays pending while none arrived; an error event or a
    rejected [play()] arriving first rejects it with that very error; a
    completed seek arriving first rejects it with the canvas error when no
    2d context is to be had and resolves it with a JPEG frame otherwise.
    Later events never change it. *)
Theorem extractFirstFrame_decided_by_first_event host evs :
  (first_settling evs = None -> extractFirstFrame host evs = None)
  /\ (forall err,
        first_settling evs = Some (ErrorEvent err)
        \/ first_settling evs = Some (PlayRejected err) ->
        extractFirstFrame host evs = Some (Reject err))
  /\ (first_settling evs = Some Seeked ->
      getContext host = false ->
      extractFirstFrame host evs = Some (Reject (new_Error msg_no_context)))
  /\ (first_settling evs = Some Seeked ->
      getContext host = true ->
      exists frame,
        extractFirstFrame host evs = Some (Resolve frame)
        /\ frame_mimeType frame = "image/jpeg").
Proof.
  unfold extractFirstFrame.
  assert (Hstart : untouched (start host)) by now split.
  revert Hstart. generalize (start host) as x.
  induction evs as [|ev evs IH]; intros x [Hp Hr].
  - cbn. split; [intros _; exact Hp|].
    split; [intros err [H|H]; discriminate|].
    split; discriminate.
  - destruct ev as [| |err|err|dt]; cbn [first_settling exec fold_left].
    + apply IH. now split.
    + split; [discriminate|]. split; [intros err [H|H]; discriminate|].
      split.
      * intros _ Hctx. apply FrameExtraction.exec_keeps_promise.
        cbn [dispatch]. unfold onseeked. cbn. rewrite Hr, Hctx. cbn.
        now rewrite Hp.
      * intros _ Hctx. eexists. split.
        -- apply FrameExtraction.exec_keeps_promise.
           cbn [dispatch]. unfold onseeked. cbn. rewrite Hr, Hctx. cbn.
           rewrite Hp. reflexivity.
        -- reflexivity.
    + split; [discriminate|]. split; [|split; discriminate].
      intros e [H|H]; inversion H; subst.
      apply FrameExtraction.exec_keeps_promise.
      cbn [dispatch]. unfold onerror. rewrite Hr. cbn. now rewrite Hp.
    + split; [discriminate|]. split; [|split; discriminate].
      intros e [H|H]; inversion H; subst.
      apply FrameExtraction.exec_keeps_promise.
      cbn [dispatch]. unfold play_catch. rewrite Hr. cbn. now rewrite Hp.
    + apply IH. now split.
Qed.

Lemma extractFirstFrame_decided_by_first_event_witness :
  extractFirstFrame sample_host [LoadedData; ErrorEvent not_found; Seeked]
  = Some (Reject not_found).
Proof.
  exact (proj1 (proj2 (extractFirstFrame_decided_by_first_event
                         sample_host [LoadedData; ErrorEvent not_found; Seeked]))
               not_found (or_introl eq_refl)).
Defined.

(** X11.  Once a [seeked] event has been handled, nothing that arrives
    later has any effect: no second cleanup, no second drawing, no further
    call of resolve or reject, and the promise is as that event left it. *)
Theorem nothing_happens_after_seeked host evs later :
  let at_seeked := exec host (start host) (evs ++ [Seeked]) in
  let final := exec host (start host) (evs ++ Seeked :: later) in
  effects final = effects at_seeked
  /\ promise final = promise at_seeked
  /\ resolved final = true.
Proof.
  intros at_seeked final. subst at_seeked final.
  replace (evs ++ Seeked :: later) with ((evs ++ [Seeked]) ++ later)
    by now rewrite <- app_assoc.
  rewrite (exec_app host _ (evs ++ [Seeked]) later).
  apply FrameExtraction.guard_after_seeked.
  rewrite exec_app.
  generalize (exec host (start host) evs) as x. intros x.
  change (exec host x [Seeked]) with (dispatch host x Seeked).
  cbn [dispatch]. unfold onseeked. cbn.
  destruct (resolved x) eqn:E; [exact E|].
  now destruct (getContext host).
Qed.

End ExtractionLifecycle.

(** ** App: uploads, download names, credential, handlers *)

Module DownloadNames.

Import GeminiService FileUtils App Samples.

Lemma split_nonempty sep s : split sep s <> [].
Proof.
  destruct s as [|c s]; cbn [split]; [discriminate|].
  destruct (Ascii.eqb c sep); [discriminate|].
  now destruct (split sep s).
Qed.

(** Joining the fields with the separator gives the string back. *)
Lemma join_split sep s : join (String sep "") (split sep s) = s.
Proof.
  unfold join.
  induction s as [|c s IH]; [reflexivity|].
  cbn [split].
  pose proof (split_nonempty sep s) as Hne.
  destruct (split sep s) as [|field more]; [congruence|].
  destruct (Ascii.eqb c sep) eqn:E.
  - apply Ascii.eqb_eq in E. subst c.
    change (String.concat (String sep "") ("" :: field :: more))
      with ("" +:+ String sep "" +:+ String.concat (String sep "") (field :: more)).
    now rewrite IH.
  - destruct more as [|next more].
    + change (field = s) in IH. now subst.
    + change (field +:+ String sep "" +:+ String.concat (String sep "") (next :: more) = s)
        in IH.
      now rewrite <- IH.
Qed.

Lemma split_lacks sep s : lacks sep s = true -> split sep s = [s].
Proof.
  induction s as [|c s IH]; cbn [lacks split]; [reflexivity|].
  intros H. apply andb_prop in H as [Hc Hs].
  apply negb_true_iff in Hc. rewrite Ascii.eqb_sym, Hc.
  now rewrite (IH Hs).
Qed.

Lemma split_at sep a b :
  split sep (a +:+ String sep b) = split sep a ++ split sep b.
Proof.
  induction a as [|c a IH].
  - change ("" +:+ String sep b) with (String sep b).
    cbn [split]. now rewrite Ascii.eqb_refl.
  - change (String c a +:+ String sep b) with (String c (a +:+ String sep b)).
    cbn [split]. rewrite IH.
    pose proof (split_nonempty sep a) as Hne.
    destruct (split sep a) as [|field more]; [congruence|].
    now destruct (Ascii.eqb c sep).
Qed.

(** X12.  The name offered for a generated video is
    "watermark-removed-", the uploaded name up to its last dot, then
    ".mp4": only the last extension is replaced, earlier dots stay.  A name
    without any dot loses its stem altogether and gives
    "watermark-removed-.mp4".  The name offered for an image is the
    uploaded name behind the same prefix. *)
Theorem download_names (original : ImageState) :
  (forall stem ext,
      name (file original) = stem +:+ "." +:+ ext ->
      lacks "." ext = true ->
      videoDownloadName original = "watermark-removed-" +:+ stem +:+ ".mp4")
  /\ (lacks "." (name (file original)) = true ->
      videoDownloadName original = "watermark-removed-.mp4")
  /\ imageDownloadName original = "watermark-removed-" +:+ name (file original).
Proof.
  unfold videoDownloadName, slice_0_minus_1.
  split; [|split; [|reflexivity]].
  - intros stem ext Hname Hext. rewrite Hname.
    change (stem +:+ "." +:+ ext) with (stem +:+ String "." ext).
    rewrite split_at, (split_lacks _ _ Hext), removelast_last.
    change "." with (String "."%char "") at 1.
    now rewrite join_split.
  - intros Hname. now rewrite (split_lacks _ _ Hname).
Qed.

Lemma download_names_witness :
  videoDownloadName (mkImageState (mkFile "my.holiday.clip.mov" "video/quicktime")
                                  "blob:https://app/5")
  = "watermark-removed-my.holiday.clip.mp4"
  /\ videoDownloadName (mkImageState (mkFile "clip" "video/mp4") "blob:https://app/6")
     = "watermark-removed-.mp4".
Proof.
  split.
  - exact (proj1 (download_names
                    (mkImageState (mkFile "my.holiday.clip.mov" "video/quicktime")
                                  "blob:https://app/5"))
                 "my.holiday.clip" "mov" eq_refl eq_refl).
  - exact (proj1 (proj2 (download_names
                           (mkImageState (mkFile "clip" "video/mp4")
                                         "blob:https://app/6")))
                 eq_refl).
Defined.

End DownloadNames.

Module Uploads.

Import GeminiService FileUtils App Samples.

Lemma accepted_iff (m : AppMode) (kind : string) :
  (is_image m && String.eqb kind "image" = true
   \/ (is_image m && String.eqb kind "image" = false
       /\ is_video m && String.eqb kind "video" = true))
  <-> kind = mode_name m.
Proof.
  destruct m; cbn.
  - rewrite String.eqb_eq. split; [intros [H|[H1 H2]]; [exact H | discriminate] | now left].
  - rewrite String.eqb_eq. split; [intros [H|[_ H]]; [discriminate | exact H]|].
    intros H. right. now split.
Qed.

(** X13.  [handleFileChange] takes the first file of the list when
    the part of its type before the first slash is the name of the current
    mode.  It then releases every URL the state held, installs the file
    with a freshly minted live URL as the original of that mode, and clears
    every other asset, the error and the loading flag.  A file of another
    kind only sets the validation message: no asset and no URL is touched.
    No file at all only clears the error. *)
Theorem handleFileChange_accepts_by_kind s w file others fresh :
  (fileType file <> mode_name (mode s) ->
   handleFileChange s w (Some (file :: others)) fresh
   = (set_error (Some (msg_invalid_file (mode s))) s, w))
  /\ (fileType file = mode_name (mode s) ->
      "" ∉ live w ->
      let after := handleFileChange s w (Some (file :: others)) fresh in
      (mode s = image ->
       originalImage (fst after) = Some (mkImageState file fresh)
       /\ originalVideo (fst after) = None)
      /\ (mode s = video ->
          originalVideo (fst after) = Some (mkImageState file fresh)
          /\ originalImage (fst after) = None)
      /\ processedImageUrl (fst after) = None
      /\ processedVideoUrl (fst after) = None
      /\ error (fst after) = None
      /\ isLoading (fst after) = false
      /\ mode (fst after) = mode s
      /\ apiKeyStatus (fst after) = apiKeyStatus s
      /\ fresh ∈ live (snd after)
      /\ (forall u, u ∈ held s -> u <> fresh -> u ∉ live (snd after)))
  /\ handleFileChange s w None fresh = (set_error None s, w)
  /\ handleFileChange s w (Some []) fresh = (set_error None s, w).
Proof.
  split; [|split; [|split; reflexivity]].
  - intros Hkind. unfold handleFileChange. cbn [mode set_error].
    pose proof (accepted_iff (mode s) (fileType file)) as Hacc.
    destruct (is_image (mode s) && String.eqb (fileType file) "image").
    + exfalso. apply Hkind, Hacc. now left.
    + destruct (is_video (mode s) && String.eqb (fileType file) "video").
      * exfalso. apply Hkind, Hacc. right. now split.
      * reflexivity.
  - intros Hkind Hempty after. subst after.
    unfold handleFileChange. cbn [mode set_error].
    destruct s as [m l e d oi pi ov pv msg k]. cbn [mode] in *.
    destruct m; cbn [mode_name] in Hkind; rewrite Hkind; cbn [is_image is_video andb String.eqb];
      unfold handleReset, held; cbn;
      (split; [first [discriminate | intros _; now split]|]);
      (split; [first [discriminate | intros _; now split]|]);
      repeat (split; [reflexivity|]);
      (split; [set_unfold; tauto|]);
      intros u Hu Hne;
      destruct oi as [[f1 u1]|], pi as [u2|], ov as [[f3 u3]|], pv as [u4|];
      cbn in *;
      repeat match goal with
             | |- context [truthy_string ?x] =>
                 let E := fresh "E" in
                 destruct (truthy_string x) eqn:E;
                 [|apply Reset.truthy_string_false in E; subst x]
             end;
      cbn; set_unfold; intuition congruence.
Qed.

Lemma handleFileChange_accepts_by_kind_witness :
  handleFileChange image_state (mkUrls {["blob:https://app/4"]} [])
                   (Some [sample_mp4]) "blob:https://app/7"
  = (set_error (Some (msg_invalid_file image)) image_state,
     mkUrls {["blob:https://app/4"]} [])
  /\ originalImage
       (fst (handleFileChange image_state (mkUrls {["blob:https://app/4"]} [])
                              (Some [sample_png]) "blob:https://app/7"))
     = Some (mkImageState sample_png "blob:https://app/7")
  /\ ("blob:https://app/4"
      ∉ live (snd (handleFileChange image_state (mkUrls {["blob:https://app/4"]} [])
                                    (Some [sample_png]) "blob:https://app/7"))).
Proof.
  assert (Hempty : "" ∉ live (mkUrls {["blob:https://app/4"]} [])).
  { cbn [live]. set_unfold. discriminate. }
  split; [|split].
  - apply (proj1 (handleFileChange_accepts_by_kind
                    image_state (mkUrls {["blob:https://app/4"]} [])
                    sample_mp4 [] "blob:https://app/7")).
    discriminate.
  - exact (proj1 (proj1 (proj1 (proj2 (handleFileChange_accepts_by_kind
                    image_state (mkUrls {["blob:https://app/4"]} [])
                    sample_png [] "blob:https://app/7")) eq_refl Hempty) eq_refl)).
  - destruct (proj1 (proj2 (handleFileChange_accepts_by_kind
                    image_state (mkUrls {["blob:https://app/4"]} [])
                    sample_png [] "blob:https://app/7")) eq_refl Hempty)
      as (_ & _ & _ & _ & _ & _ & _ & _ & _ & Hheld).
    apply Hheld.
    + unfold held, image_state. cbn. set_unfold. tauto.
    + discriminate.
Defined.



End Uploads.

Module Workflows.

Import GeminiService FileUtils App Samples.

(** *** The credential gate *)

(** X15.  In video mode the action is enabled after the credential
    check exactly when nothing is loading and the host reports a selected
    key; an unavailable or failing check leaves it disabled.  In image mode
    the check changes nothing.  After the key picker has completed the
    action is enabled unless something is loading, and the error is
    cleared; without a picker only an error is shown and the status stays
    as it was. *)
Theorem credential_gate (s : State) :
  (forall has,
      mode s = video ->
      (video_action_disabled (checkApiKey s has) = false
       <-> isLoading s = false /\ has = Some (Fulfilled true)))
  /\ (forall has, mode s = image -> checkApiKey s has = s)
  /\ (forall done,
        video_action_disabled (handleSelectKey s (Some (Fulfilled done))) = isLoading s
        /\ error (handleSelectKey s (Some (Fulfilled done))) = None)
  /\ apiKeyStatus (handleSelectKey s None) = apiKeyStatus s
  /\ error (handleSelectKey s None) = Some msg_no_key_picker.
Proof.
  split; [|split; [|split; [|split; reflexivity]]].
  - intros has Hm. unfold checkApiKey, video_action_disabled. rewrite Hm.
    destruct has as [[[|]|e]|]; cbn; destruct (isLoading s); cbn;
      split; try discriminate; try (intros [H1 H2]; discriminate);
      try (intros _; now split).
  - intros has Hm. unfold checkApiKey. now rewrite Hm.
  - intros done. unfold handleSelectKey, video_action_disabled. cbn.
    split; [now destruct (isLoading s) | reflexivity].
Qed.

Lemma credential_gate_witness :
  video_action_disabled
    (checkApiKey (mkState video false None false None None None None "" checking)
                 (Some (Fulfilled true)))
  = false.
Proof.
  apply (proj1 (credential_gate
                  (mkState video false None false None None None None "" checking))
               (Some (Fulfilled true)) eq_refl).
  now split.
Defined.

(** *** The image handler *)

Lemma edits_removeWatermark apiKey generateContent imageData :
  (List.length (edits (fst (removeWatermarkFromImage apiKey generateContent imageData)))
   <= 1)%nat.
Proof.
  unfold removeWatermarkFromImage.
  destruct (apiKey_missing apiKey); [cbn; lia|].
  destruct (generateContent (image_request imageData)); cbn; lia.
Qed.

Ltac image_leaf :=
  first [ reflexivity | assumption | lia
        | right; split; reflexivity
        | left; eexists; split; reflexivity ].

(** X16.  Without an uploaded image the handler does nothing.
    With one it always ends with the spinner off and with exactly one of a
    result and the error message, never both and never neither; it leaves
    the upload, the video cells, the mode and the credential status alone
    and calls the service at most once.  A response without an image part
    is such a failure: the message is shown and the cause is logged. *)
Theorem image_handler_result_or_error s reader apiKey generateContent :
  let after := handleRemoveImageWatermark s reader apiKey generateContent in
  (originalImage s = None -> after = (s, []))
  /\ (originalImage s <> None ->
      isLoading (fst after) = false
      /\ ((exists u, processedImageUrl (fst after) = Some u
                     /\ error (fst after) = None)
          \/ (processedImageUrl (fst after) = None
              /\ error (fst after) = Some msg_image_error))
      /\ originalImage (fst after) = originalImage s
      /\ originalVideo (fst after) = originalVideo s
      /\ processedVideoUrl (fst after) = processedVideoUrl s
      /\ mode (fst after) = mode s
      /\ apiKeyStatus (fst after) = apiKeyStatus s
      /\ (List.length (edits (snd after)) <= 1)%nat)
  /\ (forall original read resp,
        originalImage s = Some original ->
        fileToBase64 (file original) reader = Returned read ->
        apiKey_missing apiKey = false ->
        generateContent (image_request (mkImageData (data read) (mimeType read)))
        = Fulfilled resp ->
        Forall no_image (first_candidate_parts resp) ->
        processedImageUrl (fst after) = None
        /\ error (fst after) = Some msg_image_error
        /\ snd after
           = [CallGenerateContent
                (image_request (mkImageData (data read) (mimeType read)));
              ConsoleError [LogError (new_Error msg_no_image)]]).
Proof.
  intros after. subst after. unfold handleRemoveImageWatermark.
  split; [|split].
  - intros ->. reflexivity.
  - destruct (originalImage s) as [original|] eqn:Ho; [intros _|congruence].
    destruct (fileToBase64 (file original) reader) as [read|err].
    + pose proof (edits_removeWatermark apiKey generateContent
                    (mkImageData (data read) (mimeType read))) as Hedits.
      destruct (removeWatermarkFromImage apiKey generateContent
                  (mkImageData (data read) (mimeType read))) as [t [v|err]];
        cbn [fst] in Hedits.
      * destruct v as [| |result];
          [| |destruct (truthy_string result)];
          unfold image_failed; cbn; rewrite ?ServiceCalls.edits_app; cbn;
          rewrite ?app_nil_r; repeat split; image_leaf.
      * unfold image_failed; cbn. rewrite ServiceCalls.edits_app. cbn.
        rewrite app_nil_r. repeat split; image_leaf.
    + unfold image_failed; cbn. repeat split; image_leaf.
  - intros original read resp Ho Hread Hkey Hreply Hnone.
    rewrite Ho, Hread.
    rewrite (WatermarkRemoval.fulfilled_run _ _ _ _ Hkey Hreply).
    apply WatermarkRemoval.scan_parts_null in Hnone. rewrite Hnone.
    now repeat split.
Qed.

Lemma image_handler_result_or_error_witness :
  error (fst (handleRemoveImageWatermark image_state
                (LoadString "data:image/png;base64,QUJD") (Some "key")
                (fun _ => Fulfilled image_in_second_candidate)))
  = Some msg_image_error.
Proof.
  refine (proj1 (proj2 (proj2 (proj2 (image_handler_result_or_error
                   image_state (LoadString "data:image/png;base64,QUJD")
                   (Some "key") (fun _ => Fulfilled image_in_second_candidate)))
                 (mkImageState sample_png "blob:https://app/4")
                 (mkImageData (Str "QUJD") "image/png")
                 image_in_second_candidate eq_refl eq_refl eq_refl eq_refl _))).
  repeat constructor.
Defined.

(** *** The video handler *)

(** Both services throw objects: a caught [null] or [undefined] can only
    come from the extraction. *)
Lemma removeWatermark_thrown_not_nullish apiKey generateContent imageData t err :
  removeWatermarkFromImage apiKey generateContent imageData = (t, Thrown err) ->
  is_nullish err = false.
Proof.
  unfold removeWatermarkFromImage.
  destruct (apiKey_missing apiKey); [intros H; inversion H; reflexivity|].
  destruct (generateContent (image_request imageData));
    intros H; inversion H; reflexivity.
Qed.

Lemma generate_thrown_not_nullish apiKey ai imageData width height t err :
  generateVideoFromFrame apiKey ai imageData width height = (t, Some (Thrown err)) ->
  is_nullish err = false.
Proof.
  intros H.
  assert (Hs : snd (generateVideoFromFrame apiKey ai imageData width height)
               = Some (Thrown err)) by now rewrite H.
  clear H.
  destruct (apiKey_missing apiKey) eqn:K.
  - rewrite (ServiceCalls.generate_without_key _ _ _ _ _ K) in Hs.
    inversion Hs. reflexivity.
  - destruct (ServiceCalls.apiKey_present _ K) as (key & -> & Hkey).
    rewrite (VideoGeneration.generate_outcome _ _ _ _ _ Hkey) in Hs.
    destruct (snd (try_block key ai imageData width height)) as [[b|e]|];
      try discriminate.
    unfold catch_block in Hs. cbn [snd] in Hs.
    destruct (is_nullish e); [inversion Hs; reflexivity|].
    destruct (is_entity_not_found e); inversion Hs; reflexivity.
Qed.

Ltac video_cases s host evs apiKey cleaning ai :=
  unfold handleRemoveVideoWatermark;
  match goal with
  | Ho : originalVideo s = Some _ |- _ => rewrite Ho
  end;
  destruct (extractFirstFrame host evs) as [[?frame|?err]|] eqn:?Hextract;
  [ destruct cleaning as [?generateContent|];
    [ destruct (removeWatermarkFromImage apiKey _ _)
        as [?t [?clean|?err]] eqn:?Hclean;
      [ destruct (truthy _) eqn:?Htruthy;
        [ destruct (generateVideoFromFrame apiKey ai _ _ _)
            as [?t' [[?videoBlob|?err]|]] eqn:?Hgen | ] | ]
    | destruct (apiKey_missing apiKey) eqn:?Hkey ]
  | | ].

(** Resolves the tests of the catch block on the value that was caught. *)
Ltac caught_value :=
  unfold video_failed;
  repeat match goal with
         | H : removeWatermarkFromImage _ _ _ = (_, Thrown ?e)
           |- context [is_nullish ?e] =>
             rewrite (removeWatermark_thrown_not_nullish _ _ _ _ _ H)
         | H : generateVideoFromFrame _ _ _ _ _ = (_, Some (Thrown ?e))
           |- context [is_nullish ?e] =>
             rewrite (generate_thrown_not_nullish _ _ _ _ _ _ _ H)
         | |- context [is_nullish ?e] =>
             is_var e; destruct e as [?m| |]; cbn [is_nullish]
         | |- context [is_api_key_invalid ?e] => destruct (is_api_key_invalid e)
         end;
  cbn.

Ltac pick_state :=
  first
    [ left; repeat split;
      first [ reflexivity | left; reflexivity | right; left; reflexivity
            | right; right; reflexivity ]
    | right; left; repeat split; reflexivity
    | right; right; left; repeat split;
      first [ reflexivity | left; split; reflexivity | right; split; reflexivity ]
    | right; right; right; repeat split; reflexivity ].

(** The states the handler can be seen in. *)
Lemma video_handler_states
    s w host evs apiKey cleaning ai fresh original :
  originalVideo s = Some original ->
  let final :=
    fst (fst (handleRemoveVideoWatermark s w host evs apiKey cleaning ai fresh)) in
  (isLoading final = true /\ error final = None
   /\ processedVideoUrl final = None
   /\ apiKeyStatus final = apiKeyStatus s
   /\ (videoLoadingMessage final = msg_stage_extract
       \/ videoLoadingMessage final = msg_stage_clean
       \/ videoLoadingMessage final = msg_stage_generate))
  \/ (isLoading final = false /\ videoLoadingMessage final = ""
      /\ error final = None
      /\ processedVideoUrl final = Some fresh
      /\ apiKeyStatus final = apiKeyStatus s)
  \/ (isLoading final = false /\ videoLoadingMessage final = ""
      /\ processedVideoUrl final = None
      /\ ((error final = Some msg_key_error
           /\ apiKeyStatus final = not_selected)
          \/ (error final = Some msg_video_error
              /\ apiKeyStatus final = apiKeyStatus s)))
  \/ (isLoading final = false /\ videoLoadingMessage final = ""
      /\ processedVideoUrl final = None
      /\ error final = None
      /\ apiKeyStatus final = apiKeyStatus s
      /\ extractFirstFrame host evs = Some (Reject Nullish)).
Proof.
  intros Ho final. subst final.
  video_cases s host evs apiKey cleaning ai; caught_value; pick_state.
Qed.

(** X17.  With an uploaded video the handler is, at any moment it can be
    observed, in one of four states.  Suspended: spinner on under the label
    of the extraction, of the cleaning or of the generation stage, no
    error, no result.  Succeeded: spinner off, label empty, the fresh URL
    as result, no error.  Failed: spinner off, label empty, no result, and
    either the credential message with the status downgraded to
    [not_selected], or the generic message with the status as it was.
    Broken off: spinner off, label empty, no result and no message, which
    happens only when the extraction rejects with [null] or [undefined]
    and the catch block fails on it.  The status is never raised; the
    upload, the image cells and the mode are never touched.  Each stage
    that does not complete is where the handler stays: under the
    extraction label while the extraction is pending, under the cleaning
    label while the image service has not answered, under the generation
    label while the job is not done. *)
Theorem video_handler_outcome
    s w host evs apiKey cleaning ai fresh original :
  originalVideo s = Some original ->
  let final :=
    fst (fst (handleRemoveVideoWatermark s w host evs apiKey cleaning ai fresh)) in
  originalVideo final = originalVideo s
  /\ originalImage final = originalImage s
  /\ processedImageUrl final = processedImageUrl s
  /\ mode final = mode s
  /\ ((isLoading final = true /\ error final = None
       /\ processedVideoUrl final = None
       /\ apiKeyStatus final = apiKeyStatus s
       /\ (videoLoadingMessage final = msg_stage_extract
           \/ videoLoadingMessage final = msg_stage_clean
           \/ videoLoadingMessage final = msg_stage_generate))
      \/ (isLoading final = false /\ videoLoadingMessage final = ""
          /\ error final = None
          /\ processedVideoUrl final = Some fresh
          /\ apiKeyStatus final = apiKeyStatus s)
      \/ (isLoading final = false /\ videoLoadingMessage final = ""
          /\ processedVideoUrl final = None
          /\ ((error final = Some msg_key_error
               /\ apiKeyStatus final = not_selected)
              \/ (error final = Some msg_video_error
                  /\ apiKeyStatus final = apiKeyStatus s)))
      \/ (isLoading final = false /\ videoLoadingMessage final = ""
          /\ processedVideoUrl final = None
          /\ error final = None
          /\ apiKeyStatus final = apiKeyStatus s
          /\ extractFirstFrame host evs = Some (Reject Nullish)))
  /\ (extractFirstFrame host evs = None ->
      isLoading final = true /\ videoLoadingMessage final = msg_stage_extract)
  /\ (forall frame,
        extractFirstFrame host evs = Some (Resolve frame) ->
        cleaning = None ->
        apiKey_missing apiKey = false ->
        isLoading final = true /\ videoLoadingMessage final = msg_stage_clean)
  /\ (forall frame generateContent t clean,
        extractFirstFrame host evs = Some (Resolve frame) ->
        cleaning = Some generateContent ->
        removeWatermarkFromImage apiKey generateContent
          (mkImageData (frame_data frame) (frame_mimeType frame))
        = (t, Returned clean) ->
        truthy clean = true ->
        snd (generateVideoFromFrame apiKey ai
               (mkImageData clean (frame_mimeType frame))
               (Z.of_N (width frame)) (Z.of_N (height frame))) = None ->
        isLoading final = true /\ videoLoadingMessage final = msg_stage_generate).
Proof.
  intros Ho final.
  split; [|split; [|split; [|split; [|split; [|split; [|split]]]]]].
  - subst final.
    video_cases s host evs apiKey cleaning ai; caught_value;
      first [reflexivity | exact Ho].
  - subst final.
    video_cases s host evs apiKey cleaning ai; caught_value; reflexivity.
  - subst final.
    video_cases s host evs apiKey cleaning ai; caught_value; reflexivity.
  - subst final.
    video_cases s host evs apiKey cleaning ai; caught_value; reflexivity.
  - exact (video_handler_states s w host evs apiKey cleaning ai fresh original Ho).
  - intros Hpending. subst final. unfold handleRemoveVideoWatermark.
    rewrite Ho, Hpending. now split.
  - intros frame Hframe -> Hkey. subst final.
    unfold handleRemoveVideoWatermark. rewrite Ho, Hframe, Hkey. now split.
  - intros frame generateContent t clean Hframe -> Hclean Htruthy Hgen.
    subst final. unfold handleRemoveVideoWatermark.
    rewrite Ho, Hframe, Hclean, Htruthy.
    destruct (generateVideoFromFrame apiKey ai
                (mkImageData clean (frame_mimeType frame))
                (Z.of_N (width frame)) (Z.of_N (height frame))) as [t' outcome].
    cbn [snd] in Hgen. subst outcome. now split.
Qed.

Lemma video_handler_outcome_witness :
  videoLoadingMessage
    (fst (fst (handleRemoveVideoWatermark busy_state busy_urls sample_host
                 decoding_events (Some "key") None
                 done_after_two_queries "blob:https://app/8")))
  = msg_stage_clean
  /\ videoLoadingMessage
       (fst (fst (handleRemoveVideoWatermark busy_state busy_urls sample_host
                    decoding_events (Some "key")
                    (Some (fun _ => Fulfilled sample_response))
                    never_done "blob:https://app/8")))
     = msg_stage_generate
  /\ originalVideo
       (fst (fst (handleRemoveVideoWatermark busy_state busy_urls sample_host
                    decoding_events (Some "key")
                    (Some (fun _ => Fulfilled sample_response))
                    done_after_two_queries "blob:https://app/8")))
     = originalVideo busy_state.
Proof.
  split; [|split].
  - exact (proj2 (proj1 (proj2 (proj2 (proj2 (proj2 (proj2 (proj2
             (video_handler_outcome
                busy_state busy_urls sample_host decoding_events (Some "key")
                None done_after_two_queries "blob:https://app/8"
                (mkImageState sample_mp4 "blob:https://app/2") eq_refl)))))))
             (mkFrame (Str "RlJBTUU=") "image/jpeg" 1920 1080)
             eq_refl eq_refl eq_refl)).
  - exact (proj2 (proj2 (proj2 (proj2 (proj2 (proj2 (proj2 (proj2
             (video_handler_outcome
                busy_state busy_urls sample_host decoding_events (Some "key")
                (Some (fun _ => Fulfilled sample_response))
                never_done "blob:https://app/8"
                (mkImageState sample_mp4 "blob:https://app/2") eq_refl)))))))
             (mkFrame (Str "RlJBTUU=") "image/jpeg" 1920 1080)
             (fun _ => Fulfilled sample_response)
             [CallGenerateContent
                (image_request (mkImageData (Str "RlJBTUU=") "image/jpeg"))]
             (Str "AAAA") eq_refl eq_refl eq_refl eq_refl eq_refl)).
  - exact (proj1 (video_handler_outcome
                    busy_state busy_urls sample_host decoding_events (Some "key")
                    (Some (fun _ => Fulfilled sample_response))
                    done_after_two_queries "blob:https://app/8"
                    (mkImageState sample_mp4 "blob:https://app/2") eq_refl)).
Defined.

(** X18.  When the frame was extracted and cleaned and a remote
    call of the generation (submission, status query or download) then
    fails with an entity-not-found message, the handler ends with the
    credential message, the status [not_selected], no result and the
    spinner off: the video action is disabled and the credential prompt is
    shown. *)
Theorem video_handler_downgrades_credential
    s w host evs key generateContent ai fresh original frame t clean phase e :
  originalVideo s = Some original ->
  truthy_string key = true ->
  extractFirstFrame host evs = Some (Resolve frame) ->
  removeWatermarkFromImage (Some key) generateContent
    (mkImageData (frame_data frame) (frame_mimeType frame)) = (t, Returned clean) ->
  truthy clean = true ->
  raised key ai (mkImageData clean (frame_mimeType frame))
         (Z.of_N (width frame)) (Z.of_N (height frame)) phase e ->
  is_entity_not_found e = true ->
  let final :=
    fst (fst (handleRemoveVideoWatermark s w host evs (Some key)
                (Some generateContent) ai fresh)) in
  error final = Some msg_key_error
  /\ apiKeyStatus final = not_selected
  /\ isLoading final = false
  /\ processedVideoUrl final = None
  /\ video_action_disabled final = true
  /\ key_prompt_shown final = true.
Proof.
  intros Ho Hkey Hframe Hclean Htruthy Hraised He final. subst final.
  unfold handleRemoveVideoWatermark. rewrite Ho, Hframe, Hclean, Htruthy.
  pose proof (VideoGeneration.generate_outcome key ai
                (mkImageData clean (frame_mimeType frame))
                (Z.of_N (width frame)) (Z.of_N (height frame)) Hkey) as Hout.
  rewrite (VideoGeneration.raised_try_block _ _ _ _ _ _ _ Hraised) in Hout.
  unfold catch_block in Hout. cbn [snd] in Hout.
  rewrite (VideoGeneration.entity_not_found_not_nullish _ He), He in Hout.
  destruct (generateVideoFromFrame (Some key) ai
              (mkImageData clean (frame_mimeType frame))
              (Z.of_N (width frame)) (Z.of_N (height frame))) as [t' outcome].
  cbn [snd] in Hout. subst outcome.
  now repeat split.
Qed.

Lemma video_handler_downgrades_credential_witness :
  apiKeyStatus
    (fst (fst (handleRemoveVideoWatermark busy_state busy_urls sample_host
                 decoding_events (Some "key")
                 (Some (fun _ => Fulfilled sample_response))
                 submission_not_found "blob:https://app/8")))
  = not_selected.
Proof.
  refine (proj1 (proj2 (video_handler_downgrades_credential
            busy_state busy_urls sample_host decoding_events "key"
            (fun _ => Fulfilled sample_response) submission_not_found
            "blob:https://app/8"
            (mkImageState sample_mp4 "blob:https://app/2")
            (mkFrame (Str "RlJBTUU=") "image/jpeg" 1920 1080)
            [CallGenerateContent
               (image_request (mkImageData (Str "RlJBTUU=") "image/jpeg"))]
            (Str "AAAA") Submission not_found
            eq_refl eq_refl eq_refl eq_refl eq_refl _ eq_refl))).
  apply raised_submission. reflexivity.
Defined.

(** X19.  A stage that fails ends the run.  When the extraction
    rejects, the handler only logs the reason: no service is called.  When
    the extraction is still pending nothing has happened.  When the
    cleaning throws, or returns nothing or an empty string, the handler
    logs an error after the events of the cleaning and submits no job,
    issues no status query and fetches nothing. *)
Theorem video_handler_stops_at_first_failure
    s w host evs apiKey generateContent ai fresh original :
  originalVideo s = Some original ->
  let t := snd (handleRemoveVideoWatermark s w host evs apiKey
                  (Some generateContent) ai fresh) in
  (forall err,
      extractFirstFrame host evs = Some (Reject err) ->
      t = [ConsoleError [LogError err]])
  /\ (extractFirstFrame host evs = None -> t = [])
  /\ (forall frame t1 c,
        extractFirstFrame host evs = Some (Resolve frame) ->
        removeWatermarkFromImage apiKey generateContent
          (mkImageData (frame_data frame) (frame_mimeType frame)) = (t1, c) ->
        (forall clean, c = Returned clean -> truthy clean = false) ->
        submissions t = [] /\ queries t = [] /\ fetches t = []
        /\ exists err, t = t1 ++ [ConsoleError [LogError err]]).
Proof.
  intros Ho t. subst t. unfold handleRemoveVideoWatermark. rewrite Ho.
  split; [|split].
  - intros err ->. reflexivity.
  - intros ->. reflexivity.
  - intros frame t1 c -> Hclean Hfalsy. rewrite Hclean.
    assert (Hquiet : submissions t1 = [] /\ queries t1 = [] /\ fetches t1 = []).
    { unfold removeWatermarkFromImage in Hclean.
      destruct (apiKey_missing apiKey); [inversion Hclean; now repeat split|].
      destruct (generateContent _); inversion Hclean; now repeat split. }
    destruct Hquiet as (Hs & Hq & Hf).
    assert (Hlog : forall err,
               submissions (t1 ++ [ConsoleError [LogError err]]) = []
               /\ queries (t1 ++ [ConsoleError [LogError err]]) = []
               /\ fetches (t1 ++ [ConsoleError [LogError err]]) = []).
    { intros err.
      rewrite ResultMimeType.submissions_app, VideoGeneration.queries_app,
        ServiceCalls.fetches_app, Hs, Hq, Hf.
      now repeat split. }
    destruct c as [clean|err].
    + rewrite (Hfalsy clean eq_refl). unfold video_failed. cbn [snd].
      destruct (Hlog (new_Error msg_no_clean_frame)) as (H1 & H2 & H3).
      repeat split; try assumption. eauto.
    + unfold video_failed. cbn [snd].
      destruct (Hlog err) as (H1 & H2 & H3).
      repeat split; try assumption. eauto.
Qed.

Lemma video_handler_stops_at_first_failure_witness :
  snd (handleRemoveVideoWatermark busy_state busy_urls sample_host
         [LoadedData; ErrorEvent not_found] (Some "key")
         (Some (fun _ => Fulfilled sample_response)) done_at_submission
         "blob:https://app/8")
  = [ConsoleError [LogError not_found]].
Proof.
  exact (proj1 (video_handler_stops_at_first_failure
                  busy_state busy_urls sample_host
                  [LoadedData; ErrorEvent not_found] (Some "key")
                  (fun _ => Fulfilled sample_response) done_at_submission
                  "blob:https://app/8"
                  (mkImageState sample_mp4 "blob:https://app/2") eq_refl)
               not_found eq_refl).
Defined.

(** *** The object URLs of the video handler *)

Lemma revoke_on_cleanup_live v effs : forall w0 u,
  u ∈ live (fold_left (fun w e => if is_cleanup e then revokeObjectURL v w else w)
                      effs w0)
  <-> u ∈ live w0 /\ (existsb is_cleanup effs = true -> u <> v).
Proof.
  induction effs as [|e effs IH]; intros w0 u; cbn [fold_left existsb].
  - split; [intros H; split; [exact H | discriminate] | tauto].
  - rewrite IH. destruct (is_cleanup e); cbn [orb live revokeObjectURL].
    + set_unfold. intuition congruence.
    + tauto.
Qed.

Lemma revoke_on_cleanup_revocations v effs : forall w0,
  revocations (fold_left (fun w e => if is_cleanup e then revokeObjectURL v w
                                     else w) effs w0)
  = revocations w0 ++ repeat v (List.length (List.filter is_cleanup effs)).
Proof.
  induction effs as [|e effs IH]; intros w0; cbn [fold_left List.filter].
  - cbn. now rewrite app_nil_r.
  - rewrite IH. destruct (is_cleanup e); [|reflexivity].
    cbn [revocations revokeObjectURL List.length repeat].
    now rewrite <- app_assoc.
Qed.

Lemma dispatch_cleaned_if_settled host x ev :
  open_or_released x -> cleaned_if_settled x ->
  cleaned_if_settled (dispatch host x ev).
Proof.
  unfold cleaned_if_settled. intros Hopen Hx.
  destruct ev as [| |err|err|dt]; cbn [dispatch];
    unfold onseeked, onerror, play_catch, onloadeddata; cbn;
    repeat match goal with
           | |- context [if ?b then _ else _] => destruct b; cbn
           end;
    try exact Hx;
    intros _; rewrite ?existsb_app; cbn;
    rewrite ?orb_true_r; reflexivity.
Qed.

Lemma exec_cleaned_if_settled host evs : forall x,
  open_or_released x -> cleaned_if_settled x ->
  cleaned_if_settled (exec host x evs).
Proof.
  induction evs as [|ev evs IH]; intros x Ho Hx; [exact Hx|].
  apply IH.
  - now apply ExtractionLifecycle.dispatch_open_or_released.
  - now apply dispatch_cleaned_if_settled.
Qed.

Lemma settled_iff_cleaned host evs :
  existsb is_cleanup (effects (exec host (start host) evs)) = true
  <-> extractFirstFrame host evs <> None.
Proof.
  unfold extractFirstFrame.
  assert (Hopen : open_or_released (start host)) by (left; now repeat split).
  split.
  - intros Hc.
    destruct (ExtractionLifecycle.exec_open_or_released host evs _ Hopen)
      as [(_ & _ & _ & He) | (Hp & _)]; [|exact Hp].
    rewrite He in Hc. discriminate.
  - apply exec_cleaned_if_settled; [exact Hopen|].
    intros H. now contradiction H.
Qed.

(** The store the handler leaves: the one after the extraction, with the
    result URL added on success. *)
Lemma video_handler_urls
    s w host evs apiKey cleaning ai fresh original :
  originalVideo s = Some original ->
  let after := handleRemoveVideoWatermark s w host evs apiKey cleaning ai fresh in
  let w' := extraction_urls host evs (revoke_url (processedVideoUrl s) w) in
  (processedVideoUrl (fst (fst after)) = None /\ snd (fst after) = w')
  \/ (processedVideoUrl (fst (fst after)) = Some fresh
      /\ snd (fst after) = createObjectURL fresh w').
Proof.
  intros Ho after w'. subst after w'.
  video_cases s host evs apiKey cleaning ai; unfold video_failed;
    repeat match goal with
           | |- context [is_nullish ?e] => destruct (is_nullish e)
           | |- context [is_api_key_invalid ?e] => destruct (is_api_key_invalid e)
           end;
    cbn; first [left; split; reflexivity | right; split; reflexivity].
Qed.

Lemma revoke_url_live old w u :
  u ∈ live (revoke_url old w)
  <-> u ∈ live w /\ (forall v, old = Some v -> truthy_string v = true -> u <> v).
Proof.
  unfold revoke_url. destruct old as [v|].
  - destruct (truthy_string v) eqn:Hv; cbn [live revokeObjectURL].
    + set_unfold. split.
      * intros [H Hne]. split; [exact H|].
        intros v' E _. inversion E. congruence.
      * intros [H Hne]. split; [exact H|]. now apply (Hne v).
    + split; [intros H; split; [exact H|] | tauto].
      intros v' E Ht. inversion E. congruence.
  - split; [intros H; split; [exact H | discriminate] | tauto].
Qed.

(** X20.  The URLs of one run.  The handler revokes the URL of the
    previous result; the extraction then mints the URL of the upload's
    video element and revokes it once for every [cleanup()] its events
    lead to (twice when an error event is followed by a rejected
    [play()]); on success the handler mints the result URL.  So: the
    revocations of the run are the previous result followed by one copy
    of the element URL per cleanup; the previous result is not live
    afterwards unless it is minted again; the result URL is the fresh one
    and is live; the element URL is live exactly while the extraction is
    pending; and without a result the store holds nothing it did not hold
    before, the element URL of a pending extraction apart. *)
Theorem video_handler_url_store
    s w host evs apiKey cleaning ai fresh original :
  originalVideo s = Some original ->
  let after := handleRemoveVideoWatermark s w host evs apiKey cleaning ai fresh in
  let final := fst (fst after) in
  let urls := snd (fst after) in
  revocations urls
  = revocations (revoke_url (processedVideoUrl s) w)
    ++ repeat (videoUrl host) (cleanups (exec host (start host) evs))
  /\ (forall u, processedVideoUrl s = Some u -> truthy_string u = true ->
                u <> fresh ->
                u <> videoUrl host \/ extractFirstFrame host evs <> None ->
                u ∉ live urls)
  /\ (forall u, processedVideoUrl final = Some u -> u = fresh /\ fresh ∈ live urls)
  /\ (extractFirstFrame host evs = None -> videoUrl host ∈ live urls)
  /\ (extractFirstFrame host evs <> None -> fresh <> videoUrl host ->
      videoUrl host ∉ live urls)
  /\ (processedVideoUrl final = None ->
      forall u, u ∈ live urls ->
                u ∈ live w
                \/ (u = videoUrl host /\ extractFirstFrame host evs = None)).
Proof.
  intros Ho after final urls.
  pose proof (video_handler_urls s w host evs apiKey cleaning ai fresh
                original Ho) as Hurls.
  pose proof (settled_iff_cleaned host evs) as Hsettled.
  cbv zeta in Hurls. fold after in Hurls. fold final urls in Hurls.
  assert (Hin : forall u,
             u ∈ live (extraction_urls host evs
                         (revoke_url (processedVideoUrl s) w))
             <-> (u = videoUrl host
                  \/ (u ∈ live w
                      /\ forall v, processedVideoUrl s = Some v ->
                                   truthy_string v = true -> u <> v))
                 /\ (extractFirstFrame host evs <> None -> u <> videoUrl host)).
  { intros u. unfold extraction_urls. rewrite revoke_on_cleanup_live.
    cbn [live createObjectURL]. rewrite <- Hsettled.
    set_unfold. rewrite revoke_url_live. tauto. }
  assert (Hlive : forall u,
             u ∈ live urls
             <-> (processedVideoUrl final = Some fresh /\ u = fresh)
                 \/ u ∈ live (extraction_urls host evs
                                (revoke_url (processedVideoUrl s) w))).
  { intros u. destruct Hurls as [[Hn ->] | [Hs ->]].
    - rewrite Hn. split; [tauto | intros [[H _]|H]; [discriminate | exact H]].
    - cbn [live createObjectURL]. set_unfold. tauto. }
  split; [|split; [|split; [|split; [|split]]]].
  - destruct Hurls as [[_ ->] | [_ ->]]; cbn [revocations createObjectURL];
      unfold extraction_urls; rewrite revoke_on_cleanup_revocations;
      reflexivity.
  - intros u Hu Ht Hfresh Hne Hl. apply Hlive in Hl.
    destruct Hl as [[_ E] | Hl]; [contradiction|].
    apply Hin in Hl. destruct Hl as [[E | [_ Hl]] Hs].
    + destruct Hne as [Hne | Hne]; [contradiction | now apply Hs].
    + now apply (Hl u).
  - intros u Hu. destruct Hurls as [[Hn _] | [Hs _]]; [congruence|].
    assert (u = fresh) as -> by congruence.
    split; [reflexivity|]. apply Hlive. left. now split.
  - intros Hp. apply Hlive. right. apply Hin. split; [now left|].
    intros H. contradiction.
  - intros Hp Hfresh Hl. apply Hlive in Hl.
    destruct Hl as [[_ E] | Hl]; [congruence|].
    apply Hin in Hl. destruct Hl as [_ Hl]. now apply Hl.
  - intros Hn u Hl. apply Hlive in Hl.
    destruct Hl as [[E _] | Hl]; [congruence|].
    apply Hin in Hl. destruct Hl as [[E | [Hl _]] Hs]; [|now left].
    right. split; [exact E|].
    destruct (extractFirstFrame host evs); [|reflexivity].
    exfalso. now apply Hs.
Qed.

Lemma video_handler_url_store_witness :
  ("blob:https://app/3"
   ∉ live (snd (fst (handleRemoveVideoWatermark busy_state busy_urls sample_host
                       decoding_events (Some "key")
                       (Some (fun _ => Fulfilled sample_response))
                       done_after_two_queries "blob:https://app/8"))))
  /\ revocations
       (snd (fst (handleRemoveVideoWatermark busy_state busy_urls sample_host
                    [ErrorEvent not_found; PlayRejected not_found] (Some "key")
                    (Some (fun _ => Fulfilled sample_response))
                    done_after_two_queries "blob:https://app/8")))
     = ["blob:https://app/3"; videoUrl sample_host; videoUrl sample_host].
Proof.
  split.
  - apply (proj1 (proj2 (video_handler_url_store
                    busy_state busy_urls sample_host decoding_events (Some "key")
                    (Some (fun _ => Fulfilled sample_response))
                    done_after_two_queries "blob:https://app/8"
                    (mkImageState sample_mp4 "blob:https://app/2") eq_refl))
                 "blob:https://app/3" eq_refl eq_refl).
    + discriminate.
    + left. discriminate.
  - exact (proj1 (video_handler_url_store
                    busy_state busy_urls sample_host
                    [ErrorEvent not_found; PlayRejected not_found] (Some "key")
                    (Some (fun _ => Fulfilled sample_response))
                    done_after_two_queries "blob:https://app/8"
                    (mkImageState sample_mp4 "blob:https://app/2") eq_refl)).
Defined.

End Workflows.
